(** * The mcp.so exporter: extraction and deduplication of server records

    A shallow embedding of [scripts/export-mcp-so.py].  Python values are
    an inductive type, Python exceptions are the [Raise] outcome of a
    small error monad, dictionaries are finite maps with string keys and
    the [seen] set of the deduplication loop is a finite set of hashed
    keys. *)

From Stdlib Require Import ZArith Lia Ascii String.
From stdpp Require Import gmap strings list fin_maps.

Set Warnings "-register-all,-clear-no-such-hyp".

(** ** Python values and exceptions *)

(** The values that [json.loads] builds, which are also the values the
    anchor loop stores in a record.  Numbers are the integers; a JSON
    number with a fraction or an exponent (a Python [float]) is outside
    the model. *)
Inductive pyval : Type :=
| PNone
| PBool (b : bool)
| PInt (z : Z)
| PStr (s : string)
| PList (l : list pyval)
| PDict (d : gmap string pyval).

Inductive exn : Type :=
| AttributeError
| TypeError
| KeyError
| ValueError
| OSError
| KeyboardInterrupt
| WebDriverException.

Inductive result (A : Type) : Type :=
| Ok (a : A)
| Raise (e : exn).
Arguments Ok {A} a.
Arguments Raise {A} e.

#[global] Instance result_ret : MRet result := fun A a => Ok a.
#[global] Instance result_bind : MBind result :=
  fun A B f m => match m with Ok a => f a | Raise e => Raise e end.

#[global] Instance exn_eq_dec : EqDecision exn.
Proof. solve_decision. Defined.

(** [bool(v)] *)
Definition truthy (v : pyval) : bool :=
  match v with
  | PNone => false
  | PBool b => b
  | PInt z => negb (z =? 0)%Z
  | PStr s => negb (String.eqb s "")
  | PList l => match l with [] => false | _ => true end
  | PDict d => negb (bool_decide (d = ∅))
  end.

(** What a set compares when it stores a value: [None], a number
    ([True == 1] and [False == 0] hash and compare as the integers), or a
    string. *)
Inductive hkey : Type :=
| HNone
| HNum (z : Z)
| HStr (s : string).

#[global] Instance hkey_eq_dec : EqDecision hkey.
Proof. solve_decision. Defined.

#[global] Instance hkey_countable : Countable hkey.
Proof.
  refine (inj_countable'
    (fun h => match h with
              | HNone => inl (inl ())
              | HNum z => inl (inr z)
              | HStr s => inr s
              end)
    (fun x => match x with
              | inl (inl _) => HNone
              | inl (inr z) => HNum z
              | inr s => HStr s
              end) _).
  intros []; reflexivity.
Defined.

(** [hash(v)]: lists and dictionaries are unhashable. *)
Definition py_hash (v : pyval) : result hkey :=
  match v with
  | PNone => Ok HNone
  | PBool b => Ok (HNum (if b then 1 else 0))
  | PInt z => Ok (HNum z)
  | PStr s => Ok (HStr s)
  | PList _ => Raise TypeError
  | PDict _ => Raise TypeError
  end.

(** [v.get(k, dflt)]: only a dictionary has the method. *)
Definition py_get (v : pyval) (k : string) (dflt : pyval) : result pyval :=
  match v with
  | PDict d => Ok (default dflt (d !! k))
  | _ => Raise AttributeError
  end.

(** A [for] loop whose body may raise: the first exception ends it. *)
Fixpoint for_each {S A : Type} (body : S -> A -> result S)
    (l : list A) (st : S) : result S :=
  match l with
  | [] => Ok st
  | x :: t => st' ← body st x; for_each body t st'
  end.

(** ** Deduplication (the loop of [extract_servers_from_page], lines
    109-116, and of [save_data], lines 177-185) *)

(** [server.get('url', server.get('name', ''))]: the default argument is
    evaluated first. *)
Definition identity_key (server : pyval) : result pyval :=
  name ← py_get server "name" (PStr "");
  py_get server "url" name.

(** One iteration: [if key and key not in seen: seen.add(key);
    unique_servers.append(server)]. *)
Definition dedupe_step (st : gset hkey * list pyval) (server : pyval)
    : result (gset hkey * list pyval) :=
  let '(seen, unique_servers) := st in
  key ← identity_key server;
  if truthy key then
    h ← py_hash key;
    if bool_decide (h ∉ seen)
    then Ok ({[h]} ∪ seen, unique_servers ++ [server])
    else Ok (seen, unique_servers)
  else Ok (seen, unique_servers).

Definition dedupe (servers : list pyval) : result (list pyval) :=
  st ← for_each dedupe_step servers (∅, []);
  Ok (snd st).

(** A record written as its fields. *)
Definition mkdict (fields : list (string * pyval)) : pyval :=
  PDict (list_to_map fields).

(** The key under which the loop stores a record: [Some h] when the
    identity key is truthy (and hashable), [None] when the loop skips the
    record because its key is falsy. *)
Definition record_key (server : pyval) : result (option hkey) :=
  key ← identity_key server;
  if truthy key then h ← py_hash key; Ok (Some h) else Ok None.

Definition hkey_of (server : pyval) : option hkey :=
  match record_key server with Ok o => o | Raise _ => None end.

(** The loop never raises on [server]. *)
Definition keyed (server : pyval) : Prop :=
  exists o, record_key server = Ok o.

Definition keyset (l : list pyval) : gset hkey :=
  list_to_set (omap hkey_of l).

(** The records the loop appends when it starts with [seen]. *)
Fixpoint keep_first (seen : gset hkey) (l : list pyval) : list pyval :=
  match l with
  | [] => []
  | r :: t =>
      match hkey_of r with
      | Some h =>
          if bool_decide (h ∉ seen)
          then r :: keep_first ({[h]} ∪ seen) t
          else keep_first seen t
      | None => keep_first seen t
      end
  end.


(** ** Strings: the [str] methods the anchor loop calls *)

(** [s.startswith(pre)] *)
Definition startswith (pre s : string) : bool := String.prefix pre s.

(** [sub in s] *)
Fixpoint contains (sub s : string) : bool :=
  String.prefix sub s
  || match s with
     | EmptyString => false
     | String _ t => contains sub t
     end.

Fixpoint lstrip (c : ascii) (s : string) : string :=
  match s with
  | EmptyString => EmptyString
  | String a t => if Ascii.eqb a c then lstrip c t else s
  end.

Fixpoint rstrip (c : ascii) (s : string) : string :=
  match s with
  | EmptyString => EmptyString
  | String a t =>
      match rstrip c t with
      | EmptyString => if Ascii.eqb a c then EmptyString else String a EmptyString
      | t' => String a t'
      end
  end.

(** [s.strip(c)] for a one-character [c] *)
Definition strip (c : ascii) (s : string) : string := rstrip c (lstrip c s).

(** [s.split(c)] for a one-character separator: empty segments are kept
    and the result is never empty. *)
Fixpoint split (c : ascii) (s : string) : list string :=
  match s with
  | EmptyString => [EmptyString]
  | String a t =>
      if Ascii.eqb a c then EmptyString :: split c t
      else match split c t with
           | [] => [String a EmptyString]
           | seg :: segs => String a seg :: segs
           end
  end.

(** [l[-k]] for [1 <= k]; [None] stands for [IndexError]. *)
Definition index_from_end {A : Type} (l : list A) (k : nat) : option A :=
  if bool_decide (k <= length l) then l !! (length l - k) else None.

Definition slash : ascii := "/"%char.

(** ** The parsed page

    BeautifulSoup is a library: the document it builds is taken as the
    input, through the answers to the queries the function makes of it. *)

(** The enclosing [div] found by [link.find_parent]: the stripped text of
    the first element whose class contains "desc", of the first whose
    class contains "author", and of every [code] and [pre] block. *)
Record container : Type := {
  desc_elem : option string;
  author_elem : option string;
  code_blocks : list string;
}.

(** An [a] element: its [href] attribute, [get_text(strip=True)] and the
    outcome of [find_parent]. *)
Record anchor : Type := {
  href_attr : option string;
  get_text : string;
  find_parent : option container;
}.

(** The document: its [a] elements in document order and, for every
    [script] element with id [__NEXT_DATA__], its [.string] ([None] when
    the element has no single text child). *)
Record soup : Type := {
  anchors : list anchor;
  next_data_scripts : list (option string);
}.

(** ** [extract_servers_from_page] *)

(** The filter of [find_all]: [lambda x: x and '/server/' in x], where
    [x] is [None] for an anchor without the attribute. *)
Definition is_server_link (link : anchor) : bool :=
  match href_attr link with
  | Some x => negb (String.eqb x "") && contains "/server/" x
  | None => false
  end.

Definition is_install_command (text : string) : bool :=
  existsb (fun cmd => contains cmd text) ["npx"; "npm install"; "uvx"].

Definition set_field (k : string) (v : option string)
    (server : gmap string pyval) : gmap string pyval :=
  match v with
  | Some text => <[k := PStr text]> server
  | None => server
  end.

Definition origin : string := "https://mcp.so".

(** The [url] field, line 67. *)
Definition server_url (href : string) : string :=
  if negb (startswith "http" href) then origin +:+ href else href.

(** The enrichment from the container, lines 70-87: description, author
    and the first code block that holds an install command. *)
Definition enrich (c : container) (server : gmap string pyval)
    : gmap string pyval :=
  set_field "installCommand" (List.find is_install_command (code_blocks c))
    (set_field "author" (author_elem c)
       (set_field "description" (desc_elem c) server)).

(** Lines 89-93: [slug] and [authorFromUrl] from the parts of the href. *)
Definition url_fields (href : string) (server : gmap string pyval)
    : gmap string pyval :=
  let url_parts := split slash (strip slash href) in
  if bool_decide (3 <= length url_parts)
  then
    match index_from_end url_parts 2, index_from_end url_parts 1 with
    | Some p2, Some p1 =>
        <["authorFromUrl" := PStr p1]> (<["slug" := PStr p2]> server)
    | _, _ => server
    end
  else server.

(** The body of the anchor loop, lines 56-95: [None] is [continue],
    [Some server] is the record appended. *)
Definition link_server (link : anchor) : option (gmap string pyval) :=
  let href := default "" (href_attr link) in
  if String.eqb href "/servers" then None
  else
    let server : gmap string pyval :=
      <["url" := PStr (server_url href)]>
        (<["name" := PStr (get_text link)]> ∅) in
    let server :=
      match find_parent link with
      | Some c => enrich c server
      | None => server
      end in
    Some (url_fields href server).

(** The anchor loop. *)
Definition link_servers (doc : soup) : list pyval :=
  omap (fun link => PDict <$> link_server link)
       (List.filter is_server_link (anchors doc)).

(** ['k' in v] *)
Definition py_contains (k : string) (v : pyval) : result bool :=
  match v with
  | PDict d => Ok (bool_decide (is_Some (d !! k)))
  | PList l =>
      Ok (existsb (fun x => match x with
                            | PStr s => String.eqb k s
                            | _ => false
                            end) l)
  | PStr s => Ok (contains k s)
  | _ => Raise TypeError
  end.

(** [v['k']] *)
Definition py_getitem (v : pyval) (k : string) : result pyval :=
  match v with
  | PDict d =>
      match d !! k with
      | Some x => Ok x
      | None => Raise KeyError
      end
  | _ => Raise TypeError
  end.

(** A byte [10xxxxxx]: it continues a character of a UTF-8 text. *)
Definition is_continuation (c : ascii) : bool :=
  match c with
  | Ascii _ _ _ _ _ _ false true => true
  | _ => false
  end.

(** The characters (code points) of a text.  A string holds the UTF-8
    bytes of the Python [str]: each character is a byte that is not a
    continuation, with the continuation bytes that follow it. *)
Fixpoint code_points (s : string) : list string :=
  match s with
  | EmptyString => []
  | String a t =>
      let continued :=
        match t with
        | String b _ => is_continuation b
        | EmptyString => false
        end in
      match code_points t with
      | u :: rest =>
          if continued then String a u :: rest
          else String a EmptyString :: u :: rest
      | [] => [String a EmptyString]
      end
  end.

(** The one-character strings that iterating a string yields. *)
Definition chars (s : string) : list pyval := PStr <$> code_points s.

(** What [list.extend(v)] appends: the elements of a list, the keys of a
    dictionary, the characters of a string; other values are not
    iterable.  A finite map does not record the order in which its keys
    were inserted: the keys come in the order of the map, which is a
    permutation of the order in which Python yields them.  Every key is
    a string, on which the deduplication raises, so no outcome of the
    extraction depends on that order. *)
Definition py_iter (v : pyval) : result (list pyval) :=
  match v with
  | PList l => Ok l
  | PDict d => Ok ((fun kv => PStr (fst kv)) <$> map_to_list d)
  | PStr s => Ok (chars s)
  | _ => Raise TypeError
  end.

Section Extraction.

(** [json.loads], a library function: [Raise] when the text is not JSON. *)
Variable json_loads : string -> result pyval.

(** The body of the [try], lines 101-105: the records it would append. *)
Definition next_data_servers (script_string : option string)
    : result (list pyval) :=
  data ← match script_string with
         | Some text => json_loads text
         | None => Raise TypeError
         end;
  has_props ← py_contains "props" data;
  if (has_props : bool) then
    props ← py_getitem data "props";
    has_page_props ← py_contains "pageProps" props;
    if (has_page_props : bool) then
      page_props ← py_getitem props "pageProps";
      has_servers ← py_contains "servers" page_props;
      if (has_servers : bool) then
        found ← py_getitem page_props "servers";
        py_iter found
      else Ok []
    else Ok []
  else Ok [].

(** [try: ... except: pass] around one script. *)
Definition extend_from_script (servers : list pyval)
    (script_string : option string) : list pyval :=
  match next_data_servers script_string with
  | Ok found => servers ++ found
  | Raise _ => servers
  end.

(** The list before deduplication, lines 49-107. *)
Definition collect_servers (doc : soup) : list pyval :=
  fold_left extend_from_script (next_data_scripts doc) (link_servers doc).

Definition extract_servers_from_page (doc : soup) : result (list pyval) :=
  dedupe (collect_servers doc).

End Extraction.

(** ** The exporter: [navigate_all_pages], [save_data], [run], [main] *)

(** The browser session is outside the program.  It is an oracle: the
    outcome of starting the driver, of loading page [n] (the [driver.get]
    or the click on the next-page link, with the waits around it; for the
    first page with [wait_for_cloudflare] and its own look at the page
    source, whose exceptions it swallows) and of the [k]-th read of
    [driver.page_source] that an extraction makes, parsed.  An interrupt
    that reaches the program outside the bare [except:] clauses, which
    swallow it, is the outcome [Raise KeyboardInterrupt] of the step. *)
Record browser : Type := {
  setup_driver : result unit;
  load_page : nat -> result unit;
  page_source : nat -> result soup;
}.

(** What the program changes: the accumulated [self.servers], the number
    of extractions made so far (each reads the page source once; the look
    that [wait_for_cloudflare] takes at it is part of [load_page] and is
    not counted), and the files written, each with the list that
    [json.dump] serialised into it.  Files are told apart by their names:
    two names are two files, and a name is not a directory. *)
Record world : Type := {
  servers : list pyval;
  reads : nat;
  files : gmap string (list pyval);
}.

(** A computation that changes the world and may raise. *)
Definition M (A : Type) : Type := world -> world * result A.

#[global] Instance M_ret : MRet M := fun A a w => (w, Ok a).

#[global] Instance M_bind : MBind M :=
  fun A B f m w =>
    match m w with
    | (w', Ok a) => f a w'
    | (w', Raise e) => (w', Raise e)
    end.

Definition lift {A : Type} (r : result A) : M A := fun w => (w, r).

Inductive run_mode : Type := ModeAll | ModeSingle.

Inductive exit_outcome : Type :=
| Exit (status : Z)
| Uncaught (e : exn).

Definition default_filename : string := "mcp-so-servers.json".
Definition partial_filename : string := "mcp-so-partial.json".

Section Exporter.

Variable json_loads : string -> result pyval.
Variable br : browser.

(** [self.extract_servers_from_page()] on the page the browser shows. *)
Definition extract_current : M (list pyval) :=
  fun w =>
    ({| servers := servers w; reads := S (reads w); files := files w |},
     doc ← page_source br (reads w);
     extract_servers_from_page json_loads doc).

(** [self.servers.extend(page_servers)] *)
Definition extend_servers (page_servers : list pyval) : M unit :=
  fun w =>
    ({| servers := servers w ++ page_servers; reads := reads w;
        files := files w |}, Ok tt).

(** The [while current_page <= max_pages] loop, lines 130-171; [fuel] is
    the number of iterations left. *)
Fixpoint page_loop (fuel : nat) (current_page : nat) : M unit :=
  match fuel with
  | O => mret tt
  | S fuel' =>
      let next (page_servers : list pyval) : M unit :=
        extend_servers page_servers ;;
        lift (load_page br (S current_page)) ;;
        page_loop fuel' (S current_page) in
      page_servers ← extract_current;
      match page_servers with
      | [] =>
          page_servers ← extract_current;
          match page_servers with
          | [] => mret tt
          | _ => next page_servers
          end
      | _ => next page_servers
      end
  end.

Definition navigate_all_pages (max_pages : Z) : M unit :=
  lift (load_page br 1) ;;
  page_loop (Z.to_nat max_pages) 1.

(** [save_data]: deduplicate [self.servers], then write the file; the
    write itself is taken to succeed. *)
Definition save_data (filename : string) : M unit :=
  fun w =>
    match dedupe (servers w) with
    | Ok unique_servers =>
        ({| servers := servers w; reads := reads w;
            files := <[filename := unique_servers]> (files w) |}, Ok tt)
    | Raise e => (w, Raise e)
    end.

Definition extract_single_page : M (list pyval) :=
  lift (load_page br 1) ;;
  extract_current.

(** [run]; the [finally] clause only closes the browser, and
    [driver.quit()] is taken to return. *)
Definition run (mode : run_mode) (max_pages : Z) : M unit :=
  lift (setup_driver br) ;;
  match mode with
  | ModeAll => navigate_all_pages max_pages ;; save_data default_filename
  | ModeSingle => extract_single_page ;; mret tt
  end.

(** [shutil.move(src, dst)] between two files told apart by their names:
    a missing source is a [FileNotFoundError], an [OSError]. *)
Definition move_file (src dst : string) : M unit :=
  fun w =>
    match files w !! src with
    | Some content =>
        ({| servers := servers w; reads := reads w;
            files := <[dst := content]> (delete src (files w)) |}, Ok tt)
    | None => (w, Raise OSError)
    end.

(** [main], lines 254-272, from a fresh exporter: the final world and how
    the process ends.  [KeyboardInterrupt] is not an [Exception], so the
    first handler takes it; an exception raised inside that handler is
    not caught. *)
Definition main (mode : run_mode) (max_pages : Z) (output : string)
    (files0 : gmap string (list pyval)) : world * exit_outcome :=
  let w0 := {| servers := []; reads := 0; files := files0 |} in
  let body : M unit :=
    run mode max_pages ;;
    match mode with
    | ModeAll =>
        if negb (String.eqb output default_filename)
        then move_file default_filename output
        else mret tt
    | ModeSingle => mret tt
    end in
  match body w0 with
  | (w, Ok _) => (w, Exit 0)
  | (w, Raise KeyboardInterrupt) =>
      match servers w with
      | [] => (w, Exit 0)
      | _ =>
          match save_data partial_filename w with
          | (w', Ok _) => (w', Exit 0)
          | (w', Raise e) => (w', Uncaught e)
          end
      end
  | (w, Raise _) => (w, Exit 1)
  end.

End Exporter.

(** ** The identity key in the words of the specification *)

Definition truthy_field (d : gmap string pyval) (k : string) : option pyval :=
  match d !! k with
  | Some v => if truthy v then Some v else None
  | None => None
  end.

(** "[url] field if present and truthy, else [name] field if present and
    truthy, else empty string".  It is compared with [identity_key], the
    key the code computes. *)
Definition spec_identity_key (server : pyval) : pyval :=
  match server with
  | PDict d =>
      default (default (PStr "") (truthy_field d "name")) (truthy_field d "url")
  | _ => PStr ""
  end.

(** The key [k] of a record is truthy and no record of [earlier] has it. *)
Definition first_occurrence (k : option hkey) (earlier : list pyval) : bool :=
  match k with
  | Some h => bool_decide (h ∉ keyset earlier)
  | None => false
  end.

(** The character [c] occurs in [s]. *)
Fixpoint has_char (c : ascii) (s : string) : bool :=
  match s with
  | EmptyString => false
  | String a t => Ascii.eqb a c || has_char c t
  end.

(** The anchor's [href] contains the item-detail path segment. *)
Definition has_server_segment (link : anchor) : bool :=
  match href_attr link with
  | Some href => contains "/server/" href
  | None => false
  end.

(** The [servers] entry under [props] and [pageProps] of the page data,
    when every level is a dictionary that has the key. *)
Definition nested_servers (data : pyval) : option pyval :=
  match data with
  | PDict d =>
      match d !! "props" with
      | Some (PDict props) =>
          match props !! "pageProps" with
          | Some (PDict page_props) => page_props !! "servers"
          | _ => None
          end
      | _ => None
      end
  | _ => None
  end.

(** A record the deduplication keeps when its key is new: its key is
    truthy and hashable. *)
Definition storable (r : pyval) : Prop :=
  exists h, record_key r = Ok (Some h).

(** A step of the exporter that leaves the files alone, keeps
    [self.servers] a list of storable records, and returns a value that
    satisfies [Q]. *)
Definition accumulates {A : Type} (m : M A) (Q : A -> Prop) : Prop :=
  forall w w' r,
    Forall storable (servers w) ->
    m w = (w', r) ->
    Forall storable (servers w')
    /\ files w' = files w
    /\ forall a, r = Ok a -> Q a.

(** ** Further notions used in the statements below *)

Definition is_dict (v : pyval) : bool :=
  match v with
  | PDict _ => true
  | _ => false
  end.

(** [hash(v)] raises: [v] is a list or a dictionary. *)
Definition unhashable (v : pyval) : bool :=
  match v with
  | PList _ | PDict _ => true
  | _ => false
  end.

Definition is_str (v : pyval) : bool :=
  match v with
  | PStr _ => true
  | _ => false
  end.

(** The fields the anchor loop can set. *)
Definition record_fields : list string :=
  ["name"; "url"; "description"; "author"; "installCommand"; "slug";
   "authorFromUrl"].

(** Every field of the record is one of the seven and holds a string. *)
Definition string_record (server : gmap string pyval) : Prop :=
  forall k v, server !! k = Some v -> k ∈ record_fields /\ is_str v = true.

Section Visits.

Variable json_loads : string -> result pyval.
Variable br : browser.

(** What the [k]-th extraction gives: the page source at the [k]-th
    read, extracted. *)
Definition visit (k : nat) : result (list pyval) :=
  doc ← page_source br k;
  extract_servers_from_page json_loads doc.

(** The records of the extractions [start], ..., [start + n - 1], in
    order. *)
Definition page_outputs (start n : nat) : list pyval :=
  concat ((fun k => match visit k with
                    | Ok out => out
                    | Raise _ => []
                    end) <$> seq start n).

End Visits.

(** ** An absolute reference in the usual sense

    The sense of "absolute" and "relative" that the specification's
    words suggest, to compare with the test of the code,
    [href.startswith('http')]: a reference is absolute when it begins
    with a scheme, a letter followed by letters, digits, "+", "-" or ".",
    and then ":". *)

Definition is_alpha (c : ascii) : bool :=
  let n := nat_of_ascii c in
  ((65 <=? n) && (n <=? 90)) || ((97 <=? n) && (n <=? 122)).

Definition is_scheme_char (c : ascii) : bool :=
  let n := nat_of_ascii c in
  is_alpha c || ((48 <=? n) && (n <=? 57))
  || (n =? 43) || (n =? 45) || (n =? 46).

Fixpoint scheme_ends (s : string) : bool :=
  match s with
  | EmptyString => false
  | String c t =>
      if Ascii.eqb c ":"%char then true
      else is_scheme_char c && scheme_ends t
  end.

Definition spec_is_absolute (href : string) : bool :=
  match href with
  | EmptyString => false
  | String c t => is_alpha c && scheme_ends t
  end.
Example dedupe_two_pages :
  dedupe [mkdict [("url", PStr "u1")]; mkdict [("url", PStr "u2")];
          mkdict [("url", PStr "u2")]; mkdict [("name", PStr "n3")]]
  = Ok [mkdict [("url", PStr "u1")]; mkdict [("url", PStr "u2")];
        mkdict [("name", PStr "n3")]].
Proof. vm_compute. reflexivity. Qed.

Example dedupe_empty_url :
  dedupe [mkdict [("url", PStr ""); ("name", PStr "x")]] = Ok [].
Proof. vm_compute. reflexivity. Qed.

Example dedupe_not_a_dict : dedupe [PStr "x"] = Raise AttributeError.
Proof. vm_compute. reflexivity. Qed.

Example dedupe_unhashable :
  dedupe [mkdict [("url", PList [PInt 1])]] = Raise TypeError.
Proof. vm_compute. reflexivity. Qed.

Section Loop.

Lemma bind_Ok {A B : Type} (m : result A) (f : A -> result B) (b : B) :
  m ≫= f = Ok b -> exists a, m = Ok a /\ f a = Ok b.
Proof. destruct m as [a|e]; simpl; [eauto | discriminate]. Qed.

Lemma for_each_app {S A : Type} (body : S -> A -> result S) l1 l2 st :
  for_each body (l1 ++ l2) st
  = for_each body l1 st ≫= for_each body l2.
Proof.
  revert st. induction l1 as [|x l1 IH]; intros st; simpl; [reflexivity|].
  destruct (body st x) as [st'|e]; simpl; [apply IH | reflexivity].
Qed.

Lemma dedupe_step_key seen u r :
  dedupe_step (seen, u) r
  = k ← record_key r;
    Ok (match k with
        | Some h => if bool_decide (h ∉ seen)
                    then ({[h]} ∪ seen, u ++ [r]) else (seen, u)
        | None => (seen, u)
        end).
Proof.
  unfold dedupe_step, record_key.
  destruct (identity_key r) as [key|e]; simpl; [|reflexivity].
  destruct (truthy key); [|reflexivity].
  destruct (py_hash key) as [h|e]; simpl; [|reflexivity].
  destruct (bool_decide (h ∉ seen)); reflexivity.
Qed.

Lemma hkey_of_keyed r o : record_key r = Ok o -> hkey_of r = o.
Proof. unfold hkey_of. intros ->. reflexivity. Qed.

Lemma keyset_nil : keyset [] = ∅.
Proof. reflexivity. Qed.

Lemma keyset_cons r l :
  keyset (r :: l)
  = match hkey_of r with Some h => {[h]} ∪ keyset l | None => keyset l end.
Proof. unfold keyset. simpl. destruct (hkey_of r); reflexivity. Qed.

Lemma keyset_app l1 l2 : keyset (l1 ++ l2) = keyset l1 ∪ keyset l2.
Proof.
  unfold keyset. rewrite omap_app, list_to_set_app_L. reflexivity.
Qed.

Lemma elem_of_keyset h l :
  h ∈ keyset l <-> exists r, r ∈ l /\ hkey_of r = Some h.
Proof.
  unfold keyset. rewrite elem_of_list_to_set, list_elem_of_omap.
  reflexivity.
Qed.

(** The loop on a list it does not raise on. *)
Lemma loop_keyed l : forall seen u,
  Forall keyed l ->
  for_each dedupe_step l (seen, u)
  = Ok (keyset l ∪ seen, u ++ keep_first seen l).
Proof.
  induction l as [|r l IH]; intros seen u Hk; cbn [for_each keep_first].
  - rewrite keyset_nil, app_nil_r. f_equal. f_equal. set_solver.
  - apply Forall_cons in Hk as [[o Ho] Hl].
    rewrite dedupe_step_key, Ho, keyset_cons, (hkey_of_keyed _ _ Ho).
    cbn [mbind result_bind]. destruct o as [h|]; [|apply IH; assumption].
    destruct (bool_decide_reflect (h ∉ seen)) as [Hn|Hn].
    + rewrite IH by assumption. rewrite <- app_assoc. simpl.
      f_equal. f_equal. set_solver.
    + rewrite IH by assumption. f_equal. f_equal.
      apply dec_stable in Hn. set_solver.
Qed.

(** The loop raises on the first record it cannot key, so a loop that
    returns saw only keyed records. *)
Lemma loop_Ok_keyed l : forall st st',
  for_each dedupe_step l st = Ok st' -> Forall keyed l.
Proof.
  induction l as [|r l IH]; intros [seen u] st' H; [constructor|].
  cbn [for_each] in H. apply bind_Ok in H as (st1 & H1 & H2).
  constructor; [|eapply IH; eassumption].
  rewrite dedupe_step_key in H1.
  destruct (record_key r) as [o|e] eqn:E; [exists o; exact E|].
  discriminate.
Qed.

Lemma dedupe_keyed l :
  Forall keyed l -> dedupe l = Ok (keep_first ∅ l).
Proof.
  intros Hk. unfold dedupe. rewrite (loop_keyed l ∅ [] Hk). reflexivity.
Qed.

Lemma dedupe_Ok l out :
  dedupe l = Ok out -> Forall keyed l /\ out = keep_first ∅ l.
Proof.
  intros H. assert (Hk : Forall keyed l).
  { unfold dedupe in H. apply bind_Ok in H as (st & H & _).
    eapply loop_Ok_keyed; eassumption. }
  split; [assumption|]. rewrite (dedupe_keyed l Hk) in H. congruence.
Qed.

Lemma dedupe_Raise l e :
  dedupe l = Raise e -> ~ Forall keyed l.
Proof. intros H Hk. rewrite (dedupe_keyed l Hk) in H. discriminate. Qed.

End Loop.

(** ** The records the loop keeps *)

(** Goals about [seen] sets: the equations on keys are of no use to
    [solve_seen]. *)
Ltac solve_seen :=
  repeat match goal with
         | H : hkey_of _ = _ |- _ => clear H
         end;
  set_solver.

Section KeepFirst.

Implicit Types (seen : gset hkey) (l : list pyval) (r : pyval).

Lemma hkey_of_Some r h : hkey_of r = Some h <-> record_key r = Ok (Some h).
Proof.
  unfold hkey_of. destruct (record_key r) as [o|e]; split; congruence.
Qed.

Lemma hkey_of_Some_keyed r h : hkey_of r = Some h -> keyed r.
Proof. intros H. exists (Some h). apply hkey_of_Some, H. Qed.

Lemma keep_first_app seen l1 l2 :
  keep_first seen (l1 ++ l2)
  = keep_first seen l1 ++ keep_first (keyset l1 ∪ seen) l2.
Proof.
  revert seen. induction l1 as [|r l1 IH]; intros seen.
  - rewrite keyset_nil. simpl. f_equal. solve_seen.
  - rewrite keyset_cons. cbn [keep_first app].
    destruct (hkey_of r) as [h|]; [|apply IH].
    case_bool_decide as Hh.
    + rewrite IH. simpl. do 3 f_equal. solve_seen.
    + rewrite IH. do 2 f_equal. solve_seen.
Qed.

Lemma keep_first_sublist seen l : sublist (keep_first seen l) l.
Proof.
  revert seen. induction l as [|r l IH]; intros seen; simpl; [constructor|].
  destruct (hkey_of r) as [h|]; [case_bool_decide|];
    (apply sublist_skip, IH) || (apply sublist_cons, IH).
Qed.

Lemma elem_of_keep_first seen l r :
  r ∈ keep_first seen l ->
  r ∈ l /\ exists h, hkey_of r = Some h /\ h ∉ seen.
Proof.
  revert seen. induction l as [|x l IH]; intros seen; simpl.
  - intros H. inversion H.
  - destruct (hkey_of x) as [h|] eqn:E; [case_bool_decide as Hh|].
    + intros [->|H]%elem_of_cons.
      * split; [left|]. exists h. auto.
      * apply IH in H as (? & h' & ? & ?). split; [right; assumption|].
        exists h'. split; [assumption|]. solve_seen.
    + intros H. apply IH in H as (? & ?). split; [right|]; assumption.
    + intros H. apply IH in H as (? & ?). split; [right|]; assumption.
Qed.

Lemma keep_first_NoDup seen l : NoDup (hkey_of <$> keep_first seen l).
Proof.
  revert seen. induction l as [|x l IH]; intros seen; simpl; [constructor|].
  destruct (hkey_of x) as [h|] eqn:E; [case_bool_decide as Hh|]; try apply IH.
  rewrite fmap_cons, E. constructor; [|apply IH].
  intros (r & Hr & Hin)%list_elem_of_fmap.
  apply elem_of_keep_first in Hin as (_ & h' & Hh' & Hfresh).
  rewrite Hh' in Hr. injection Hr as ->. solve_seen.
Qed.

(** A truthy key of the input that is not yet seen is the key of a kept
    record. *)
Lemma keep_first_complete seen l r h :
  r ∈ l -> hkey_of r = Some h -> h ∉ seen ->
  exists r', r' ∈ keep_first seen l /\ hkey_of r' = Some h.
Proof.
  revert seen. induction l as [|x l IH]; intros seen Hin Hr Hfresh.
  - inversion Hin.
  - simpl. destruct (decide (hkey_of x = Some h)) as [Hx|Hx].
    + rewrite Hx. rewrite bool_decide_eq_true_2 by assumption.
      exists x. split; [left|assumption].
    + apply elem_of_cons in Hin as [->|Hin]; [contradiction|].
      destruct (hkey_of x) as [h'|] eqn:E; [case_bool_decide as Hh|].
      * destruct (IH ({[h']} ∪ seen) Hin Hr) as (r' & ? & ?).
        { assert (h' <> h) by congruence. solve_seen. }
        exists r'. split; [right|]; assumption.
      * apply IH; assumption.
      * apply IH; assumption.
Qed.

Lemma keyset_keep_first seen l :
  keyset (keep_first seen l) ∪ seen = keyset l ∪ seen.
Proof.
  revert seen. induction l as [|x l IH]; intros seen; [reflexivity|].
  cbn [keep_first]. rewrite (keyset_cons x l).
  destruct (hkey_of x) as [h|] eqn:E; [|apply IH].
  assert (Hc : forall A : gset hkey, {[h]} ∪ A ∪ seen = A ∪ ({[h]} ∪ seen))
    by (clear; set_solver).
  case_bool_decide as Hh.
  - rewrite keyset_cons, E, !Hc. apply IH.
  - rewrite IH, Hc. clear -Hh. set_solver.
Qed.

(** A second pass with at least the same [seen] set removes exactly what
    a single pass with that set removes. *)
Lemma keep_first_absorb seen seen' l :
  seen ⊆ seen' ->
  keep_first seen' (keep_first seen l) = keep_first seen' l.
Proof.
  revert seen seen'. induction l as [|x l IH]; intros seen seen' Hsub.
  - reflexivity.
  - simpl. destruct (hkey_of x) as [h|] eqn:E; [|apply IH; assumption].
    case_bool_decide as Hh.
    + simpl. rewrite E. case_bool_decide as Hh'.
      * f_equal. apply IH. solve_seen.
      * apply IH. solve_seen.
    + rewrite bool_decide_eq_false_2 by solve_seen.
      apply IH; assumption.
Qed.

(** Every kept record stands in the input at a place before which no
    record has its key. *)
Lemma keep_first_first seen l r :
  r ∈ keep_first seen l ->
  exists l1 l2, l = l1 ++ r :: l2 /\
    forall r', r' ∈ l1 -> hkey_of r' <> hkey_of r.
Proof.
  revert seen. induction l as [|x l IH]; intros seen; simpl.
  - intros H. inversion H.
  - assert (Hskip : forall s, hkey_of x = None \/ (exists h, hkey_of x = Some h /\ h ∈ s) ->
                     r ∈ keep_first s l ->
                     exists l1 l2, x :: l = l1 ++ r :: l2 /\
                       forall r', r' ∈ l1 -> hkey_of r' <> hkey_of r).
    { intros s Hx Hin. destruct (elem_of_keep_first _ _ _ Hin) as (_ & h' & Hh' & Hf).
      destruct (IH _ Hin) as (l1 & l2 & -> & Hl1).
      exists (x :: l1), l2. split; [reflexivity|].
      intros r' [->|H']%elem_of_cons; [|apply Hl1, H'].
      rewrite Hh'. destruct Hx as [->|(h & -> & Hs)]; [discriminate|].
      intros [= ->]. contradiction. }
    destruct (hkey_of x) as [h|] eqn:E; [case_bool_decide as Hh|].
    + intros [->|H]%elem_of_cons.
      * exists [], l. split; [reflexivity|]. intros r' H'. inversion H'.
      * apply (Hskip ({[h]} ∪ seen)); [|assumption].
        right. exists h. split; [reflexivity|]. solve_seen.
    + apply Hskip. right. exists h. split; [reflexivity|]. assumption.
    + apply Hskip. left. reflexivity.
Qed.

Lemma keep_first_keyed seen l : Forall keyed (keep_first seen l).
Proof.
  apply Forall_forall. intros r (_ & h & Hh & _)%elem_of_keep_first.
  eapply hkey_of_Some_keyed, Hh.
Qed.

Lemma keyed_app l1 l2 : Forall keyed (l1 ++ l2) <-> Forall keyed l1 /\ Forall keyed l2.
Proof. apply Forall_app. Qed.

Lemma dedupe_out_keyed l out : dedupe l = Ok out -> Forall keyed out.
Proof. intros [_ ->]%dedupe_Ok. apply keep_first_keyed. Qed.

(** Deduplicating page by page and then the whole is deduplicating the
    whole. *)
Lemma keep_first_pages seen (pages : list (list pyval)) :
  keep_first seen (concat (keep_first ∅ <$> pages))
  = keep_first seen (concat pages).
Proof.
  revert seen. induction pages as [|p pages IH]; intros seen; [reflexivity|].
  rewrite fmap_cons. simpl. rewrite !keep_first_app.
  rewrite keep_first_absorb by solve_seen. f_equal.
  rewrite IH. f_equal.
  pose proof (keyset_keep_first ∅ p) as Hk.
  rewrite !(right_id_L ∅ (∪)) in Hk. rewrite Hk. reflexivity.
Qed.

End KeepFirst.

(** ** Deduplication: what is kept *)

Section Dedupe.

Implicit Types (l earlier later out : list pyval) (r : pyval).

Lemma inj_Ok (A : Type) : Inj (=) (=) (@Ok A).
Proof. intros a b H. congruence. Qed.

Lemma record_key_keyed r : keyed r -> record_key r = Ok (hkey_of r).
Proof. intros [o Ho]. rewrite (hkey_of_keyed _ _ Ho). exact Ho. Qed.

Lemma record_key_fmap_keyed l :
  Forall keyed l -> record_key <$> l = Ok <$> (hkey_of <$> l).
Proof.
  induction 1 as [|r l Hr _ IH]; [reflexivity|].
  rewrite !fmap_cons, IH, (record_key_keyed r Hr). reflexivity.
Qed.

Lemma identity_key_dict (d : gmap string pyval) :
  identity_key (PDict d)
  = Ok (match d !! "url" with
        | Some u => u
        | None => default (PStr "") (d !! "name")
        end).
Proof.
  unfold identity_key. simpl. destruct (d !! "url"); reflexivity.
Qed.

Lemma record_key_falsy r key :
  identity_key r = Ok key -> truthy key = false -> record_key r = Ok None.
Proof. unfold record_key. intros -> Hf. simpl. rewrite Hf. reflexivity. Qed.

Lemma record_key_truthy r h :
  record_key r = Ok (Some h) ->
  exists key, identity_key r = Ok key /\ truthy key = true /\ py_hash key = Ok h.
Proof.
  unfold record_key. destruct (identity_key r) as [key|e]; [|discriminate].
  simpl. destruct (truthy key) eqn:Ht; [|discriminate].
  destruct (py_hash key) as [h'|e] eqn:Hh; [|discriminate].
  simpl. intros [= ->]. eauto.
Qed.

(** The loop passes over a record whose key is falsy. *)
Lemma dedupe_skip earlier r later :
  record_key r = Ok None ->
  dedupe (earlier ++ r :: later) = dedupe (earlier ++ later).
Proof.
  intros Hr. unfold dedupe. rewrite !for_each_app.
  destruct (for_each dedupe_step earlier (∅, [])) as [[seen u]|e];
    [|reflexivity].
  cbn [mbind result_bind for_each]. rewrite dedupe_step_key, Hr. reflexivity.
Qed.

Lemma dedupe_snoc earlier r :
  dedupe (earlier ++ [r])
  = out ← dedupe earlier;
    k ← record_key r;
    Ok (if first_occurrence k earlier then out ++ [r] else out).
Proof.
  destruct (dedupe earlier) as [out|e] eqn:Hd.
  - apply dedupe_Ok in Hd as [Hk ->].
    unfold dedupe. rewrite for_each_app, (loop_keyed earlier ∅ [] Hk).
    cbn [mbind result_bind for_each]. rewrite dedupe_step_key.
    destruct (record_key r) as [[h|]|e]; cbn [mbind result_bind];
      [|reflexivity..].
    unfold first_occurrence. rewrite (right_id_L ∅ (∪)).
    destruct (bool_decide (h ∉ keyset earlier)); reflexivity.
  - unfold dedupe in *. rewrite for_each_app.
    destruct (for_each dedupe_step earlier (∅, [])) as [st|e']; [discriminate|].
    simpl in *. congruence.
Qed.

Lemma dedupe_pages (pages outs : list (list pyval)) :
  Forall2 (fun p o => dedupe p = Ok o) pages outs ->
  Forall keyed (concat pages)
  /\ dedupe (concat outs) = dedupe (concat pages).
Proof.
  intros H.
  assert (Hk : Forall keyed (concat pages)).
  { induction H as [|p o pages outs Hp _ IH]; [constructor|].
    simpl. apply Forall_app. split; [|exact IH].
    apply dedupe_Ok in Hp as [? _]. assumption. }
  assert (Ho : outs = keep_first ∅ <$> pages).
  { induction H as [|p o pages outs Hp _ IH]; [reflexivity|].
    rewrite fmap_cons. apply dedupe_Ok in Hp as [_ ->]. f_equal. apply IH.
    simpl in Hk. apply Forall_app in Hk as [_ ?]. assumption. }
  split; [exact Hk|].
  rewrite (dedupe_keyed _ Hk). subst outs. rewrite dedupe_keyed.
  - rewrite keep_first_pages. reflexivity.
  - apply Forall_concat, Forall_fmap, Forall_forall.
    intros p _. apply keep_first_keyed.
Qed.

End Dedupe.

(** *** C1 *)

(** C1, as the code has it.  The claim reads the identity key as "[url] if
    present and truthy, else [name]"; the code takes [url] whenever the
    field is present, whatever its value, and falls back to [name] only
    when [url] is absent.  With that key, [dedupe] keeps exactly the
    records whose key is truthy and is the key of no earlier record: the
    empty input gives the empty output, and a record appended to the input
    is appended to the output exactly in that case.  A record whose [url]
    is present and empty is dropped, whatever its [name]. *)
Theorem dedupe_keeps_first_truthy_keys :
  (forall d : gmap string pyval,
     identity_key (PDict d)
     = Ok (match d !! "url" with
           | Some u => u
           | None => default (PStr "") (d !! "name")
           end))
  /\ dedupe [] = Ok []
  /\ (forall (earlier : list pyval) (r : pyval),
        dedupe (earlier ++ [r])
        = out ← dedupe earlier;
          k ← record_key r;
          Ok (if first_occurrence k earlier then out ++ [r] else out))
  /\ (forall (earlier later : list pyval) (d : gmap string pyval),
        d !! "url" = Some (PStr "") ->
        dedupe (earlier ++ PDict d :: later) = dedupe (earlier ++ later)).
Proof.
  split; [exact identity_key_dict|].
  split; [reflexivity|].
  split; [exact dedupe_snoc|].
  intros earlier later d Hurl. apply dedupe_skip.
  apply (record_key_falsy _ (PStr "")); [|reflexivity].
  rewrite identity_key_dict, Hurl. reflexivity.
Qed.

Lemma dedupe_keeps_first_truthy_keys_witness :
  dedupe ([mkdict [("url", PStr "u")]]
          ++ mkdict [("url", PStr ""); ("name", PStr "x")]
          :: [mkdict [("name", PStr "y")]])
  = dedupe ([mkdict [("url", PStr "u")]] ++ [mkdict [("name", PStr "y")]]).
Proof.
  apply (proj2 (proj2 (proj2 dedupe_keeps_first_truthy_keys))).
  reflexivity.
Defined.

(** The claim fails where it is most specific: a record whose [url] is
    present but empty and whose [name] is "x" has the key "x" in the
    words of the claim, but the key the code computes is empty and the
    record is dropped. *)
Lemma dedupe_empty_url_counterexample :
  let r := mkdict [("url", PStr ""); ("name", PStr "x")] in
  spec_identity_key r = PStr "x"
  /\ identity_key r = Ok (PStr "")
  /\ dedupe [r] = Ok []
  /\ dedupe [r] <> Ok [r].
Proof. vm_compute. repeat split; discriminate. Qed.

(** *** C3 *)

(** C3, as the code has it: a record whose identity key is the empty
    string is dropped, the first one as well as the later ones; the input
    without it gives the same output. *)
Theorem dedupe_drops_empty_keys (earlier later : list pyval) (r : pyval) :
  identity_key r = Ok (PStr "") ->
  dedupe (earlier ++ r :: later) = dedupe (earlier ++ later)
  /\ forall out, dedupe (earlier ++ r :: later) = Ok out -> r ∉ out.
Proof.
  intros Hkey.
  assert (Hr : record_key r = Ok None)
    by (apply (record_key_falsy _ _ Hkey); reflexivity).
  split; [apply dedupe_skip, Hr|].
  intros out [_ ->]%dedupe_Ok (_ & h & Hh & _)%elem_of_keep_first.
  apply hkey_of_Some in Hh. congruence.
Qed.

Lemma dedupe_drops_empty_keys_witness :
  dedupe ([] ++ mkdict [("name", PStr "")] :: [mkdict [("name", PStr "")]])
  = dedupe ([] ++ [mkdict [("name", PStr "")]])
  /\ forall out,
       dedupe ([] ++ mkdict [("name", PStr "")] :: [mkdict [("name", PStr "")]])
       = Ok out ->
       mkdict [("name", PStr "")] ∉ out.
Proof.
  apply (dedupe_drops_empty_keys [] [mkdict [("name", PStr "")]]
           (mkdict [("name", PStr "")])).
  reflexivity.
Defined.

(** Two records with the empty key: the claim keeps the first, the code
    keeps neither. *)
Lemma dedupe_empty_keys_counterexample :
  let r1 := mkdict [("name", PStr ""); ("description", PStr "first")] in
  let r2 := mkdict [("name", PStr ""); ("description", PStr "second")] in
  identity_key r1 = Ok (PStr "")
  /\ identity_key r2 = Ok (PStr "")
  /\ dedupe [r1; r2] = Ok []
  /\ dedupe [r1; r2] <> Ok [r1].
Proof. vm_compute. repeat split; discriminate. Qed.

(** *** C4 *)



(** *** C5 *)

(** C5: [dedupe] after [dedupe] is [dedupe], also when it raises; and
    deduplicating the concatenation of the deduplicated pages gives what
    deduplicating the concatenation of the pages gives. *)
Theorem dedupe_idempotent :
  (forall x : list pyval, dedupe x ≫= dedupe = dedupe x)
  /\ (forall pages outs : list (list pyval),
        Forall2 (fun p o => dedupe p = Ok o) pages outs ->
        dedupe (concat outs) = dedupe (concat pages)
        /\ exists final, dedupe (concat pages) = Ok final).
Proof.
  split.
  - intros x. destruct (dedupe x) as [out|e] eqn:Hx; [|reflexivity].
    apply dedupe_Ok in Hx as [_ ->]. cbn [mbind result_bind].
    rewrite (dedupe_keyed _ (keep_first_keyed _ _)).
    rewrite keep_first_absorb by reflexivity. reflexivity.
  - intros pages outs H. destruct (dedupe_pages _ _ H) as [Hk Heq].
    split; [exact Heq|]. eexists. apply dedupe_keyed, Hk.
Qed.

Lemma dedupe_idempotent_witness :
  let a := mkdict [("url", PStr "a")] in
  let b := mkdict [("url", PStr "b")] in
  let c := mkdict [("url", PStr "c")] in
  dedupe (concat [[a; b]; [b; c]]) = dedupe (concat [[a; b; b]; [b; c; c]])
  /\ exists final, dedupe (concat [[a; b; b]; [b; c; c]]) = Ok final.
Proof.
  intros a b c.
  apply (proj2 dedupe_idempotent [[a; b; b]; [b; c; c]] [[a; b]; [b; c]]).
  repeat constructor.
Defined.

(** ** The anchor loop *)

Lemma set_field_ne (k k' : string) (v : option string)
    (server : gmap string pyval) :
  k <> k' -> set_field k v server !! k' = server !! k'.
Proof.
  intros Hne. unfold set_field. destruct v; [|reflexivity].
  apply lookup_insert_ne, Hne.
Qed.

(** Look a field up in a record built by the loop. *)
Ltac lookup_record :=
  repeat first
    [ rewrite lookup_insert_eq
    | rewrite lookup_insert_ne by discriminate
    | rewrite set_field_ne by discriminate
    | rewrite lookup_empty ].

Section Links.

Implicit Types (link : anchor) (href : string) (server : gmap string pyval).

Lemma index_from_end_app {A : Type} (front : list A) (back : list A) k :
  1 <= k <= length back ->
  index_from_end (front ++ back) k = back !! (length back - k).
Proof.
  intros Hk. unfold index_from_end.
  rewrite bool_decide_eq_true_2 by (rewrite length_app; lia).
  rewrite lookup_app_r by (rewrite length_app; lia).
  f_equal. rewrite length_app. lia.
Qed.

Lemma last_two {A : Type} (l : list A) :
  2 <= length l -> exists front p2 p1, l = front ++ [p2; p1].
Proof.
  intros Hl. destruct (rev l) as [|p1 [|p2 t]] eqn:E.
  - apply (f_equal length) in E. rewrite length_rev in E. simpl in E. lia.
  - apply (f_equal length) in E. rewrite length_rev in E. simpl in E. lia.
  - exists (rev t), p2, p1. rewrite <- (rev_involutive l), E. simpl.
    rewrite <- app_assoc. reflexivity.
Qed.

Lemma enrich_other c server k :
  k <> "description" -> k <> "author" -> k <> "installCommand" ->
  enrich c server !! k = server !! k.
Proof.
  intros H1 H2 H3. unfold enrich. rewrite !set_field_ne by congruence.
  reflexivity.
Qed.

Lemma url_fields_other href server k :
  k <> "slug" -> k <> "authorFromUrl" ->
  url_fields href server !! k = server !! k.
Proof.
  intros H1 H2. unfold url_fields. case_bool_decide; [|reflexivity].
  destruct (index_from_end (split slash (strip slash href)) 2),
    (index_from_end (split slash (strip slash href)) 1); try reflexivity.
  rewrite !lookup_insert_ne by congruence. reflexivity.
Qed.

Lemma url_fields_parts href server front p2 p1 :
  split slash (strip slash href) = front ++ [p2; p1] -> front <> [] ->
  url_fields href server !! "slug" = Some (PStr p2)
  /\ url_fields href server !! "authorFromUrl" = Some (PStr p1).
Proof.
  intros E Hfront. unfold url_fields. rewrite E.
  rewrite bool_decide_eq_true_2.
  2:{ rewrite length_app. destruct front; [contradiction|]. simpl. lia. }
  rewrite !index_from_end_app by (simpl; lia). simpl.
  lookup_record. split; reflexivity.
Qed.

Lemma url_fields_short href server :
  length (split slash (strip slash href)) < 3 ->
  url_fields href server = server.
Proof.
  intros Hlt. unfold url_fields. rewrite bool_decide_eq_false_2 by lia.
  reflexivity.
Qed.

(** The anchor loop in terms of the href. *)
Lemma link_server_href link href :
  href_attr link = Some href ->
  link_server link
  = if String.eqb href "/servers" then None
    else Some (url_fields href
                 (let server : gmap string pyval :=
                    <["url" := PStr (server_url href)]>
                      (<["name" := PStr (get_text link)]> ∅) in
                  match find_parent link with
                  | Some c => enrich c server
                  | None => server
                  end)).
Proof. intros H. unfold link_server. rewrite H. reflexivity. Qed.

(** The record the loop builds for an anchor. *)
Lemma link_server_fields link href server :
  href_attr link = Some href ->
  link_server link = Some server ->
  href <> "/servers"
  /\ server !! "name" = Some (PStr (get_text link))
  /\ server !! "url" = Some (PStr (server_url href))
  /\ (let url_parts := split slash (strip slash href) in
      (forall front p2 p1, url_parts = front ++ [p2; p1] -> front <> [] ->
         server !! "slug" = Some (PStr p2)
         /\ server !! "authorFromUrl" = Some (PStr p1))
      /\ (length url_parts < 3 ->
          server !! "slug" = None /\ server !! "authorFromUrl" = None)).
Proof.
  intros Hhref. rewrite (link_server_href _ _ Hhref).
  destruct (String.eqb_spec href "/servers") as [|Hne]; [discriminate|].
  intros [= <-]. split; [exact Hne|]. cbn zeta.
  set (base := <["url" := PStr (server_url href)]> _).
  set (server := match find_parent link with Some _ => _ | None => _ end).
  assert (Hserver : forall k, k <> "description" -> k <> "author" ->
            k <> "installCommand" -> server !! k = base !! k).
  { intros k H1 H2 H3. subst server. destruct (find_parent link);
      [apply enrich_other; assumption | reflexivity]. }
  split; [|split; [|split]].
  - rewrite url_fields_other, Hserver by discriminate.
    subst base. lookup_record. reflexivity.
  - rewrite url_fields_other, Hserver by discriminate.
    subst base. lookup_record. reflexivity.
  - intros front p2 p1 E Hfront. apply url_fields_parts with front; assumption.
  - intros Hlt. rewrite url_fields_short by assumption.
    rewrite !Hserver by discriminate. subst base. lookup_record.
    split; reflexivity.
Qed.

Lemma is_server_link_segment link :
  is_server_link link = has_server_segment link.
Proof.
  unfold is_server_link, has_server_segment.
  destruct (href_attr link) as [x|]; [|reflexivity].
  destruct x; reflexivity.
Qed.

Lemma link_server_Some link :
  href_attr link <> Some "/servers" ->
  exists server, link_server link = Some server.
Proof.
  intros Hne. unfold link_server.
  destruct (String.eqb_spec (default "" (href_attr link)) "/servers") as [E|_].
  - destruct (href_attr link); simpl in E; [congruence|discriminate].
  - eexists. reflexivity.
Qed.

End Links.

(** ** Splitting an href *)

Section Split.

Implicit Types (c : ascii) (s t : string).

Lemma split_not_nil c s : split c s <> [].
Proof.
  destruct s as [|a t]; simpl; [discriminate|].
  destruct (Ascii.eqb a c); [discriminate|].
  destruct (split c t); discriminate.
Qed.

(** Splitting at a separator: the parts before it, then the parts after. *)
Lemma split_app_sep c s t :
  split c (s +:+ String c t) = split c s ++ split c t.
Proof.
  induction s as [|a s IH]; simpl.
  - rewrite Ascii.eqb_refl. reflexivity.
  - destruct (Ascii.eqb a c); [rewrite IH; reflexivity|].
    rewrite IH. pose proof (split_not_nil c s) as Hs.
    destruct (split c s) as [|seg segs]; [contradiction|reflexivity].
Qed.

Lemma split_no_sep c s : has_char c s = false -> split c s = [s].
Proof.
  induction s as [|a s IH]; simpl; [reflexivity|].
  intros [Ha Hs]%orb_false_iff. rewrite Ha, (IH Hs). reflexivity.
Qed.

(** A stripped href that ends in [/a/b]. *)
Lemma split_last_two (front a b : string) :
  has_char slash a = false -> has_char slash b = false ->
  split slash (front +:+ String slash (a +:+ String slash b))
  = split slash front ++ [a; b].
Proof.
  intros Ha Hb.
  rewrite split_app_sep, split_app_sep, (split_no_sep _ a Ha),
    (split_no_sep _ b Hb).
  reflexivity.
Qed.

Lemma startswith_nonempty pre s :
  pre <> EmptyString -> startswith pre s = true -> s <> EmptyString.
Proof.
  intros Hpre H ->. destruct pre; [contradiction|discriminate].
Qed.

Lemma server_url_nonempty href : server_url href <> EmptyString.
Proof.
  unfold server_url. destruct (startswith "http" href) eqn:E; simpl.
  - apply (startswith_nonempty "http"); [discriminate|exact E].
  - discriminate.
Qed.

End Split.

(** *** C2 *)

(** C2, as the code has it.  The href, stripped of leading and trailing
    slashes, is split on "/"; when there are at least three parts, [slug]
    is the part before the last and [authorFromUrl] is the last part, so
    an href ending in [/a/b] gives slug [a] and authorFromUrl [b]; with
    fewer than three parts neither field is set.  For
    [/server/acme/tool-a] and [/server/acme/tool-b] the pairs (slug,
    authorFromUrl) are ("acme", "tool-a") and ("acme", "tool-b"). *)
Theorem slug_and_author_from_href
    (link : anchor) (href : string) (server : gmap string pyval) :
  href_attr link = Some href ->
  link_server link = Some server ->
  let url_parts := split slash (strip slash href) in
  (3 <= length url_parts ->
     exists front p2 p1,
       url_parts = front ++ [p2; p1]
       /\ server !! "slug" = Some (PStr p2)
       /\ server !! "authorFromUrl" = Some (PStr p1))
  /\ (length url_parts < 3 ->
        server !! "slug" = None /\ server !! "authorFromUrl" = None)
  /\ (forall front a b,
        strip slash href = front +:+ "/" +:+ a +:+ "/" +:+ b ->
        has_char slash a = false -> has_char slash b = false ->
        server !! "slug" = Some (PStr a)
        /\ server !! "authorFromUrl" = Some (PStr b))
  /\ (href = "/server/acme/tool-a" ->
        server !! "slug" = Some (PStr "acme")
        /\ server !! "authorFromUrl" = Some (PStr "tool-a"))
  /\ (href = "/server/acme/tool-b" ->
        server !! "slug" = Some (PStr "acme")
        /\ server !! "authorFromUrl" = Some (PStr "tool-b")).
Proof.
  intros Hhref Hserver url_parts.
  destruct (link_server_fields _ _ _ Hhref Hserver)
    as (_ & _ & _ & Hparts & Hshort).
  fold url_parts in Hparts, Hshort.
  assert (Hends : forall front a b,
            strip slash href = front +:+ "/" +:+ a +:+ "/" +:+ b ->
            has_char slash a = false -> has_char slash b = false ->
            server !! "slug" = Some (PStr a)
            /\ server !! "authorFromUrl" = Some (PStr b)).
  { intros front a b E Ha Hb. apply (Hparts (split slash front)).
    - subst url_parts. rewrite E. apply (split_last_two front a b Ha Hb).
    - apply split_not_nil. }
  split; [|split; [exact Hshort|split; [exact Hends|split]]].
  - intros Hlen. destruct (last_two url_parts) as (front & p2 & p1 & E); [lia|].
    exists front, p2, p1. split; [exact E|]. apply (Hparts front); [exact E|].
    intros ->. rewrite E in Hlen. simpl in Hlen. lia.
  - intros ->. apply (Hends "server" "acme" "tool-a"); reflexivity.
  - intros ->. apply (Hends "server" "acme" "tool-b"); reflexivity.
Qed.

Lemma slug_and_author_from_href_witness :
  let link := {| href_attr := Some "/server/acme/tool-b";
                 get_text := "Tool B"; find_parent := None |} in
  exists server,
    link_server link = Some server
    /\ server !! "slug" = Some (PStr "acme")
    /\ server !! "authorFromUrl" = Some (PStr "tool-b").
Proof.
  intros link.
  exists (url_fields "/server/acme/tool-b"
            (<["url" := PStr (server_url "/server/acme/tool-b")]>
               (<["name" := PStr "Tool B"]> ∅))).
  split; [reflexivity|].
  apply (slug_and_author_from_href link "/server/acme/tool-b");
    reflexivity.
Defined.

(** The claim's own example: for [/server/acme/tool-a] the claim gives
    (slug, authorFromUrl) = ("tool-a", "acme"); the code gives
    ("acme", "tool-a"). *)
Lemma slug_author_counterexample :
  let link := {| href_attr := Some "/server/acme/tool-a";
                 get_text := "Tool A"; find_parent := None |} in
  is_server_link link = true
  /\ exists server,
       link_server link = Some server
       /\ server !! "slug" = Some (PStr "acme")
       /\ server !! "authorFromUrl" = Some (PStr "tool-a")
       /\ (server !! "slug", server !! "authorFromUrl")
          <> (Some (PStr "tool-a"), Some (PStr "acme")).
Proof.
  intros link. split; [reflexivity|].
  eexists. split; [reflexivity|].
  vm_compute. repeat split; discriminate.
Qed.

(** *** C6 *)

(** C6, as the code has it.  The claim speaks of relative and absolute
    hrefs; the code looks only at the first four characters.  The [url]
    field of the record of an anchor is the href itself when the href
    starts with "http", and "https://mcp.so" followed by the href
    otherwise.  So an href that starts with "/" is prefixed with the
    origin, and an href that starts with "http://" or "https://" is kept
    as it is. *)
Theorem url_is_origin_prefixed_or_verbatim
    (link : anchor) (href : string) (server : gmap string pyval) :
  href_attr link = Some href ->
  link_server link = Some server ->
  server !! "url"
  = Some (PStr (if startswith "http" href then href
                else "https://mcp.so" +:+ href))
  /\ (forall rest, href = "/" +:+ rest ->
        server !! "url" = Some (PStr ("https://mcp.so/" +:+ rest)))
  /\ (forall rest, href = "http://" +:+ rest \/ href = "https://" +:+ rest ->
        server !! "url" = Some (PStr href)).
Proof.
  intros Hhref Hserver.
  destruct (link_server_fields _ _ _ Hhref Hserver) as (_ & _ & Hurl & _).
  rewrite Hurl. unfold server_url, origin. split; [|split].
  - destruct (startswith "http" href); reflexivity.
  - intros rest ->. reflexivity.
  - intros rest [-> | ->]; reflexivity.
Qed.

Lemma url_is_origin_prefixed_or_verbatim_witness :
  let link := {| href_attr := Some "/server/x"; get_text := "X";
                 find_parent := None |} in
  exists server,
    link_server link = Some server
    /\ server !! "url" = Some (PStr "https://mcp.so/server/x").
Proof.
  intros link.
  exists (url_fields "/server/x"
            (<["url" := PStr (server_url "/server/x")]>
               (<["name" := PStr "X"]> ∅))).
  split; [reflexivity|].
  apply (url_is_origin_prefixed_or_verbatim link "/server/x");
    reflexivity.
Defined.

(** The claim fails on hrefs of other shapes.  "ftp://files.example/server/x"
    is absolute, and the code prefixes it with the origin;
    "httpserver/server/z/w" is relative, and the code keeps it as it is
    because it starts with "http". *)
Lemma url_of_other_hrefs_counterexample :
  let absolute := {| href_attr := Some "ftp://files.example/server/x";
                     get_text := "X"; find_parent := None |} in
  let relative := {| href_attr := Some "httpserver/server/z/w";
                     get_text := "Z"; find_parent := None |} in
  (is_server_link absolute = true
   /\ spec_is_absolute "ftp://files.example/server/x" = true
   /\ exists server,
        link_server absolute = Some server
        /\ server !! "url"
           = Some (PStr "https://mcp.softp://files.example/server/x")
        /\ server !! "url" <> Some (PStr "ftp://files.example/server/x"))
  /\ (is_server_link relative = true
      /\ spec_is_absolute "httpserver/server/z/w" = false
      /\ exists server,
           link_server relative = Some server
           /\ server !! "url" = Some (PStr "httpserver/server/z/w")
           /\ server !! "url"
              <> Some (PStr "https://mcp.sohttpserver/server/z/w")).
Proof.
  intros absolute relative. split.
  - split; [reflexivity|]. split; [reflexivity|].
    eexists. split; [reflexivity|]. vm_compute. split; [reflexivity|].
    discriminate.
  - split; [reflexivity|]. split; [reflexivity|].
    eexists. split; [reflexivity|]. vm_compute. split; [reflexivity|].
    discriminate.
Qed.

(** ** The page: anchors and embedded JSON *)

Section Page.

Variable json_loads : string -> result pyval.

Implicit Types (doc : soup) (link : anchor) (script : option string).

Lemma listing_root_no_segment : contains "/server/" "/servers" = false.
Proof. reflexivity. Qed.

Lemma has_server_segment_href link :
  has_server_segment link = true ->
  exists href, href_attr link = Some href
    /\ contains "/server/" href = true /\ href <> "/servers".
Proof.
  unfold has_server_segment. destruct (href_attr link) as [href|];
    [|discriminate].
  intros H. exists href. split; [reflexivity|]. split; [exact H|].
  intros ->. rewrite listing_root_no_segment in H. discriminate.
Qed.

(** One record for every anchor whose href has the segment, in order. *)
Lemma link_servers_anchors (links : list anchor) :
  Forall2 (fun link r => exists server,
             link_server link = Some server /\ r = PDict server)
    (List.filter has_server_segment links)
    (omap (fun link => PDict <$> link_server link)
       (List.filter is_server_link links)).
Proof.
  induction links as [|link links IH]; [constructor|].
  cbn [List.filter]. rewrite is_server_link_segment.
  destruct (has_server_segment link) eqn:E; [|exact IH].
  destruct (has_server_segment_href _ E) as (href & Hhref & _ & Hne).
  destruct (link_server_Some link) as [server Hs]; [congruence|].
  cbn [omap list_omap]. rewrite Hs. cbn [fmap option_fmap option_map].
  constructor; [|exact IH]. exists server. split; [exact Hs|reflexivity].
Qed.

Lemma identity_key_link link href server :
  href_attr link = Some href ->
  link_server link = Some server ->
  identity_key (PDict server) = Ok (PStr (server_url href))
  /\ record_key (PDict server) = Ok (Some (HStr (server_url href))).
Proof.
  intros Hhref Hs.
  destruct (link_server_fields _ _ _ Hhref Hs) as (_ & _ & Hurl & _).
  assert (Hk : identity_key (PDict server) = Ok (PStr (server_url href)))
    by (rewrite identity_key_dict, Hurl; reflexivity).
  split; [exact Hk|]. unfold record_key. rewrite Hk. simpl.
  destruct (String.eqb_spec (server_url href) "") as [E|_]; [|reflexivity].
  destruct (server_url_nonempty _ E).
Qed.

(** The anchor loop appends only records the deduplication can key. *)
Lemma link_servers_keyed doc : Forall keyed (link_servers doc).
Proof.
  unfold link_servers.
  pose proof (link_servers_anchors (anchors doc)) as H.
  induction H as [|link r ls rs (server & Hs & ->) _ IH]; constructor;
    [|exact IH].
  destruct (href_attr link) as [href|] eqn:Hhref.
  - exists (Some (HStr (server_url href))).
    apply (identity_key_link link href server Hhref Hs).
  - unfold link_server in Hs. rewrite Hhref in Hs. simpl in Hs.
    injection Hs as <-. eexists. unfold record_key.
    rewrite identity_key_dict, url_fields_other by discriminate.
    destruct (find_parent link);
      [rewrite enrich_other by discriminate|]; lookup_record; reflexivity.
Qed.

Lemma extend_from_script_app servers script :
  extend_from_script json_loads servers script
  = servers ++ extend_from_script json_loads [] script.
Proof.
  unfold extend_from_script.
  destruct (next_data_servers json_loads script);
    [reflexivity | rewrite app_nil_r; reflexivity].
Qed.

Lemma fold_extend_from_script scripts servers :
  fold_left (extend_from_script json_loads) scripts servers
  = servers ++ concat (extend_from_script json_loads [] <$> scripts).
Proof.
  revert servers. induction scripts as [|s scripts IH]; intros servers.
  - simpl. rewrite app_nil_r. reflexivity.
  - cbn [fold_left]. rewrite IH, extend_from_script_app, fmap_cons.
    simpl. rewrite app_assoc. reflexivity.
Qed.

(** The list before deduplication: the records of the anchors, then what
    each script adds. *)
Lemma collect_servers_scripts doc :
  collect_servers json_loads doc
  = link_servers doc
    ++ concat (extend_from_script json_loads [] <$> next_data_scripts doc).
Proof. apply fold_extend_from_script. Qed.

(** The nested lookups of the [try] body end in [servers], in nothing, or
    in an exception. *)
Lemma next_data_servers_data text data :
  json_loads text = Ok data ->
  match nested_servers data with
  | Some found => next_data_servers json_loads (Some text) = py_iter found
  | None =>
      next_data_servers json_loads (Some text) = Ok []
      \/ exists e, next_data_servers json_loads (Some text) = Raise e
  end.
Proof.
  intros Hload. unfold next_data_servers. rewrite Hload.
  cbn [mbind result_bind].
  assert (Hin : forall (d : gmap string pyval) k,
            bool_decide (is_Some (d !! k))
            = match d !! k with Some _ => true | None => false end).
  { intros d k. destruct (d !! k) eqn:E.
    - apply bool_decide_eq_true_2. eauto.
    - apply bool_decide_eq_false_2. intros [? ?]. discriminate. }
  assert (Hnodict : forall (v : pyval) (k : string) (m : pyval -> result (list pyval)),
            (forall d, v <> PDict d) ->
            (c ← py_contains k v;
             if (c : bool) then x ← py_getitem v k; m x else Ok [])
            = Ok [] \/
            exists e, (c ← py_contains k v;
                       if (c : bool) then x ← py_getitem v k; m x else Ok [])
                      = Raise e).
  { intros v k m Hv. destruct v as [| | |s|l|d]; simpl;
      try (right; eexists; reflexivity).
    - destruct (contains k s); [right; eexists|left]; reflexivity.
    - destruct (existsb _ l); [right; eexists|left]; reflexivity.
    - destruct (Hv d). reflexivity. }
  destruct data as [| | | | |d];
    try (apply Hnodict; intros; discriminate).
  cbn [nested_servers py_contains py_getitem mbind result_bind].
  rewrite Hin. destruct (d !! "props") as [props|]; [|left; reflexivity].
  cbn [mbind result_bind].
  destruct props as [| | | | |p];
    try (apply Hnodict; intros; discriminate).
  cbn [py_contains py_getitem mbind result_bind].
  rewrite Hin. destruct (p !! "pageProps") as [page_props|];
    [|left; reflexivity].
  cbn [mbind result_bind].
  destruct page_props as [| | | | |pp];
    try (apply Hnodict; intros; discriminate).
  cbn [py_contains py_getitem mbind result_bind].
  rewrite Hin. destruct (pp !! "servers") as [found|]; [|left; reflexivity].
  reflexivity.
Qed.

(** A script whose text does not parse, or whose data lacks the nested
    keys, adds nothing. *)
Lemma failed_script_adds_nothing script servers :
  (script = None
   \/ exists text, script = Some text
        /\ ((exists e, json_loads text = Raise e)
            \/ exists data, json_loads text = Ok data
                 /\ nested_servers data = None)) ->
  extend_from_script json_loads servers script = servers.
Proof.
  unfold extend_from_script.
  intros [-> | (text & -> & [[e He] | (data & Hd & Hn)])].
  - reflexivity.
  - unfold next_data_servers. rewrite He. reflexivity.
  - pose proof (next_data_servers_data text data Hd) as H.
    rewrite Hn in H. destruct H as [-> | [e ->]];
      [apply app_nil_r | reflexivity].
Qed.

Lemma extract_out_keys doc out r :
  extract_servers_from_page json_loads doc = Ok out ->
  r ∈ out ->
  exists key, identity_key r = Ok key /\ truthy key = true
    /\ key <> PStr "" /\ spec_identity_key r = key.
Proof.
  unfold extract_servers_from_page. intros [_ ->]%dedupe_Ok.
  intros (_ & h & Hh & _)%elem_of_keep_first.
  apply hkey_of_Some, record_key_truthy in Hh as (key & Hkey & Ht & _).
  exists key. split; [exact Hkey|]. split; [exact Ht|].
  split; [intros ->; discriminate|].
  destruct r as [| | | | |d]; try discriminate.
  rewrite identity_key_dict in Hkey. injection Hkey as Hkey.
  unfold spec_identity_key, truthy_field.
  destruct (d !! "url") as [u|].
  - subst u. rewrite Ht. reflexivity.
  - destruct (d !! "name") as [n|]; simpl in Hkey; subst key.
    + rewrite Ht. reflexivity.
    + discriminate.
Qed.

End Page.

(** *** C7 *)

(** C7: an anchor whose href is "/servers" does not have the item-detail
    segment and gives no record; the anchors whose href has the segment
    give one record each, in document order, and these records open the
    list that is deduplicated; when the extraction returns, its output
    holds a record with the url of every such anchor. *)
Theorem listing_root_yields_no_record
    (json_loads : string -> result pyval) (doc : soup) :
  (forall link, href_attr link = Some "/servers" ->
     has_server_segment link = false /\ link_server link = None)
  /\ Forall2 (fun link r => exists server,
                link_server link = Some server /\ r = PDict server)
       (List.filter has_server_segment (anchors doc)) (link_servers doc)
  /\ (exists found,
        collect_servers json_loads doc = link_servers doc ++ found)
  /\ (forall link href out,
        link ∈ anchors doc ->
        href_attr link = Some href ->
        contains "/server/" href = true ->
        extract_servers_from_page json_loads doc = Ok out ->
        exists r, r ∈ out /\ identity_key r = Ok (PStr (server_url href))).
Proof.
  split; [|split; [|split]].
  - intros link Hhref. unfold has_server_segment, link_server.
    rewrite Hhref. split; reflexivity.
  - apply link_servers_anchors.
  - eexists. apply collect_servers_scripts.
  - intros link href out Hin Hhref Hseg Hout.
    assert (Hsel : link ∈ List.filter has_server_segment (anchors doc)).
    { apply list_elem_of_In, filter_In. split; [apply list_elem_of_In, Hin|].
      unfold has_server_segment. rewrite Hhref. exact Hseg. }
    pose proof (link_servers_anchors (anchors doc)) as Hall.
    fold (link_servers doc) in Hall.
    apply list_elem_of_lookup in Hsel as [i Hi].
    destruct (Forall2_lookup_l _ _ _ _ _ Hall Hi)
      as (r & Hr & server & Hs & ->).
    destruct (identity_key_link link href server Hhref Hs) as [_ Hkey].
    unfold extract_servers_from_page in Hout.
    apply dedupe_Ok in Hout as [_ ->].
    destruct (keep_first_complete ∅ (collect_servers json_loads doc)
                (PDict server) (HStr (server_url href)))
      as (r' & Hin' & Hk').
    + rewrite collect_servers_scripts. apply elem_of_app. left.
      apply list_elem_of_lookup. eauto.
    + apply hkey_of_Some, Hkey.
    + set_solver.
    + exists r'. split; [exact Hin'|].
      apply hkey_of_Some, record_key_truthy in Hk' as (key & Hk1 & _ & Hk2).
      rewrite Hk1. destruct key; simpl in Hk2; congruence.
Qed.

Lemma listing_root_yields_no_record_witness :
  let root := {| href_attr := Some "/servers"; get_text := "View all";
                 find_parent := None |} in
  let item := {| href_attr := Some "/server/x/y"; get_text := "X";
                 find_parent := None |} in
  let doc := {| anchors := [root; item]; next_data_scripts := [] |} in
  (has_server_segment root = false /\ link_server root = None)
  /\ exists r,
       r ∈ [PDict (url_fields "/server/x/y"
                     (<["url" := PStr "https://mcp.so/server/x/y"]>
                        (<["name" := PStr "X"]> ∅)))]
       /\ identity_key r = Ok (PStr (server_url "/server/x/y")).
Proof.
  intros root item doc.
  pose proof (listing_root_yields_no_record (fun _ => Raise ValueError) doc)
    as (Hroot & _ & _ & Hout).
  split.
  - apply (Hroot root). reflexivity.
  - apply (Hout item "/server/x/y").
    + apply list_elem_of_In. right. left. reflexivity.
    + reflexivity.
    + reflexivity.
    + vm_compute. reflexivity.
Defined.

(** *** C8 *)

(** C8: a script whose text is absent or does not parse, or whose data
    lacks the nested keys, leaves the list as it is; the list before
    deduplication is the anchors' records followed by what the other
    scripts add, and the extraction gives what it gives on the page
    without that script. *)
Theorem failed_script_is_skipped
    (json_loads : string -> result pyval) (links : list anchor)
    (before after : list (option string)) (script : option string) :
  (script = None
   \/ exists text, script = Some text
        /\ ((exists e, json_loads text = Raise e)
            \/ exists data, json_loads text = Ok data
                 /\ nested_servers data = None)) ->
  let doc := {| anchors := links;
                next_data_scripts := before ++ script :: after |} in
  let doc' := {| anchors := links; next_data_scripts := before ++ after |} in
  (forall servers, extend_from_script json_loads servers script = servers)
  /\ collect_servers json_loads doc
     = link_servers doc
       ++ concat (extend_from_script json_loads [] <$> (before ++ after))
  /\ extract_servers_from_page json_loads doc
     = extract_servers_from_page json_loads doc'.
Proof.
  intros Hfail doc doc'.
  assert (Hskip : forall servers,
            extend_from_script json_loads servers script = servers)
    by (intros servers; apply failed_script_adds_nothing, Hfail).
  assert (Hcollect : collect_servers json_loads doc
                     = collect_servers json_loads doc').
  { unfold collect_servers, doc, doc'. cbn [next_data_scripts].
    rewrite !fold_left_app. cbn [fold_left]. rewrite Hskip. reflexivity. }
  split; [exact Hskip|]. split.
  - rewrite Hcollect. apply collect_servers_scripts.
  - unfold extract_servers_from_page. rewrite Hcollect. reflexivity.
Qed.

Lemma failed_script_is_skipped_witness :
  let json_loads := fun text : string =>
    if String.eqb text "{}" then Ok (PDict ∅) else Raise ValueError in
  let links := [{| href_attr := Some "/server/x/y"; get_text := "X";
                   find_parent := None |}] in
  let doc := {| anchors := links;
                next_data_scripts := [Some "{}"] ++ Some "{oops" :: [None] |} in
  let doc' := {| anchors := links;
                 next_data_scripts := [Some "{}"] ++ [None] |} in
  (forall servers,
     extend_from_script json_loads servers (Some "{oops") = servers)
  /\ collect_servers json_loads doc
     = link_servers doc
       ++ concat (extend_from_script json_loads [] <$> ([Some "{}"] ++ [None]))
  /\ extract_servers_from_page json_loads doc
     = extract_servers_from_page json_loads doc'.
Proof.
  intros json_loads links doc doc'.
  apply (failed_script_is_skipped json_loads links [Some "{}"] [None]
           (Some "{oops")).
  right. exists "{oops". split; [reflexivity|].
  left. exists ValueError. reflexivity.
Defined.

(** *** C9 *)

(** C9: in the list the extraction returns no two records have the same
    key, and the key of every record is truthy, so not the empty string;
    on these records the key the code computes is also the key in the
    words of the specification. *)
Theorem extracted_page_is_deduplicated
    (json_loads : string -> result pyval) (doc : soup) (out : list pyval) :
  extract_servers_from_page json_loads doc = Ok out ->
  NoDup (record_key <$> out)
  /\ forall r, r ∈ out ->
       exists key, identity_key r = Ok key /\ truthy key = true
         /\ key <> PStr "" /\ spec_identity_key r = key.
Proof.
  intros Hout. split.
  - unfold extract_servers_from_page in Hout.
    apply dedupe_Ok in Hout as [_ ->].
    rewrite (record_key_fmap_keyed _ (keep_first_keyed _ _)).
    apply (@NoDup_fmap_2 _ _ Ok (inj_Ok _)), keep_first_NoDup.
  - intros r Hr. apply (extract_out_keys json_loads doc out r Hout Hr).
Qed.

Lemma extracted_page_is_deduplicated_witness :
  let json_loads := fun text : string =>
    Ok (mkdict [("props", mkdict [("pageProps", mkdict [("servers",
          PList [mkdict [("name", PStr "n")];
                 mkdict [("url", PStr "https://mcp.so/server/x/y")];
                 mkdict [("name", PStr "")]])])])]) in
  let item := {| href_attr := Some "/server/x/y"; get_text := "X";
                 find_parent := None |} in
  let doc := {| anchors := [item; item]; next_data_scripts := [Some "data"] |} in
  exists out,
    extract_servers_from_page json_loads doc = Ok out
    /\ length out = 2
    /\ NoDup (record_key <$> out)
    /\ forall r, r ∈ out ->
         exists key, identity_key r = Ok key /\ truthy key = true
           /\ key <> PStr "" /\ spec_identity_key r = key.
Proof.
  intros json_loads item doc.
  destruct (extract_servers_from_page json_loads doc) as [out|e] eqn:E;
    [|vm_compute in E; discriminate].
  exists out. split; [reflexivity|]. split.
  - vm_compute in E. injection E as <-. reflexivity.
  - apply (extracted_page_is_deduplicated json_loads doc out E).
Defined.

(** ** The run and the interrupt *)

Section Run.

Variable json_loads : string -> result pyval.
Variable br : browser.

Lemma M_bind_inv {A B : Type} (m : M A) (f : A -> M B) w w2 r :
  (m ≫= f) w = (w2, r) ->
  (exists w1 a, m w = (w1, Ok a) /\ f a w1 = (w2, r))
  \/ (exists e, m w = (w2, Raise e) /\ r = Raise e).
Proof.
  unfold mbind, M_bind. destruct (m w) as [w1 [a|e]]; intros H.
  - left. eauto.
  - right. injection H as <- <-. eauto.
Qed.

Lemma M_bind_Raise {A B : Type} (m : M A) (f : A -> M B) w w' e :
  m w = (w', Raise e) -> (m ≫= f) w = (w', Raise e).
Proof. intros H. unfold mbind, M_bind. rewrite H. reflexivity. Qed.

Lemma accumulates_bind {A B : Type} (m : M A) (f : A -> M B)
    (Q : A -> Prop) (Q' : B -> Prop) :
  accumulates m Q ->
  (forall a, Q a -> accumulates (f a) Q') ->
  accumulates (m ≫= f) Q'.
Proof.
  intros Hm Hf w w2 r Hw H.
  apply M_bind_inv in H as [(w1 & a & H1 & H2) | (e & H1 & ->)].
  - destruct (Hm _ _ _ Hw H1) as (Hw1 & Hfiles1 & Ha).
    destruct (Hf a (Ha a eq_refl) _ _ _ Hw1 H2) as (Hw2 & Hfiles2 & Hr).
    split; [exact Hw2|]. split; [congruence|exact Hr].
  - destruct (Hm _ _ _ Hw H1) as (Hw1 & Hfiles1 & _).
    split; [exact Hw1|]. split; [exact Hfiles1|]. discriminate.
Qed.

Lemma accumulates_ret {A : Type} (a : A) (Q : A -> Prop) :
  Q a -> accumulates (mret a) Q.
Proof.
  intros Ha w w' r Hw [= <- <-]. split; [exact Hw|].
  split; [reflexivity|]. intros a' [= <-]. exact Ha.
Qed.

Lemma accumulates_lift {A : Type} (x : result A) :
  accumulates (lift x) (fun _ => True).
Proof.
  intros w w' r Hw [= <- <-]. split; [exact Hw|].
  split; [reflexivity|]. intros; exact I.
Qed.

Lemma storable_keyed r : storable r -> keyed r.
Proof. intros [h Hh]. exists (Some h). exact Hh. Qed.

Lemma dedupe_out_storable l out : dedupe l = Ok out -> Forall storable out.
Proof.
  intros [_ ->]%dedupe_Ok. apply Forall_forall.
  intros r (_ & h & Hh & _)%elem_of_keep_first. exists h.
  apply hkey_of_Some, Hh.
Qed.

(** What one extraction returns can be stored. *)
Lemma accumulates_extract_current :
  accumulates (extract_current json_loads br) (Forall storable).
Proof.
  intros w w' r Hw. unfold extract_current. intros [= <- <-].
  split; [exact Hw|]. split; [reflexivity|].
  intros out Hout. destruct (page_source br (reads w)) as [doc|e];
    [|discriminate].
  apply (dedupe_out_storable _ _ Hout).
Qed.

Lemma accumulates_extend_servers page_servers :
  Forall storable page_servers ->
  accumulates (extend_servers page_servers) (fun _ => True).
Proof.
  intros Hp w w' r Hw. unfold extend_servers. intros [= <- <-].
  split; [apply Forall_app; split; assumption|].
  split; [reflexivity|]. intros; exact I.
Qed.

Lemma accumulates_page_loop fuel : forall current_page,
  accumulates (page_loop json_loads br fuel current_page) (fun _ => True).
Proof.
  induction fuel as [|fuel IH]; intros current_page.
  - apply accumulates_ret. exact I.
  - cbn [page_loop].
    assert (Hnext : forall page_servers, Forall storable page_servers ->
              accumulates
                (extend_servers page_servers ;;
                 lift (load_page br (S current_page)) ;;
                 page_loop json_loads br fuel (S current_page))
                (fun _ => True)).
    { intros ps Hps.
      eapply accumulates_bind; [apply accumulates_extend_servers, Hps|].
      intros _ _. eapply accumulates_bind; [apply accumulates_lift|].
      intros _ _. apply IH. }
    eapply accumulates_bind; [apply accumulates_extract_current|].
    intros [|r1 ps1] H1; [|apply Hnext, H1].
    eapply accumulates_bind; [apply accumulates_extract_current|].
    intros [|r2 ps2] H2; [apply accumulates_ret; exact I|apply Hnext, H2].
Qed.

Lemma accumulates_navigate_all_pages max_pages :
  accumulates (navigate_all_pages json_loads br max_pages) (fun _ => True).
Proof.
  unfold navigate_all_pages.
  eapply accumulates_bind; [apply accumulates_lift|].
  intros _ _. apply accumulates_page_loop.
Qed.

(** On a list of storable records [save_data] does not raise. *)
Lemma save_data_storable filename w :
  Forall storable (servers w) ->
  exists unique,
    dedupe (servers w) = Ok unique
    /\ save_data filename w
       = ({| servers := servers w; reads := reads w;
             files := <[filename := unique]> (files w) |}, Ok tt)
    /\ forall r, r ∈ servers w ->
         exists r', r' ∈ unique /\ record_key r' = record_key r.
Proof.
  intros Hw.
  assert (Hk : Forall keyed (servers w))
    by (eapply Forall_impl; [exact Hw | apply storable_keyed]).
  exists (keep_first ∅ (servers w)).
  pose proof (dedupe_keyed _ Hk) as Hd. split; [exact Hd|]. split.
  - unfold save_data. rewrite Hd. reflexivity.
  - intros r Hr. rewrite Forall_forall in Hw. destruct (Hw r Hr) as [h Hh].
    destruct (keep_first_complete ∅ (servers w) r h Hr) as (r' & Hin & Hk');
      [apply hkey_of_Some, Hh | set_solver |].
    exists r'. split; [exact Hin|]. apply hkey_of_Some in Hk'. congruence.
Qed.

(** A run that raises has written no file, and what it has accumulated
    can be stored. *)
Lemma run_Raise mode max_pages w0 w e :
  Forall storable (servers w0) ->
  run json_loads br mode max_pages w0 = (w, Raise e) ->
  Forall storable (servers w) /\ files w = files w0.
Proof.
  intros Hw0 H. unfold run in H.
  apply M_bind_inv in H as [(w1 & [] & H1 & H2) | (e' & H1 & _)].
  2:{ injection H1 as <- _. split; [exact Hw0|reflexivity]. }
  injection H1 as <- _. destruct mode.
  - apply M_bind_inv in H2 as [(w2 & [] & H2 & H3) | (e' & H2 & _)].
    + destruct (accumulates_navigate_all_pages _ _ _ _ Hw0 H2) as (Hw2 & _).
      destruct (save_data_storable default_filename w2 Hw2)
        as (unique & _ & Hsave & _).
      rewrite Hsave in H3. discriminate.
    + destruct (accumulates_navigate_all_pages _ _ _ _ Hw0 H2)
        as (Hw & Hfiles & _).
      split; assumption.
  - assert (Hsingle : accumulates (extract_single_page json_loads br)
                        (Forall storable)).
    { unfold extract_single_page.
      eapply accumulates_bind; [apply accumulates_lift|].
      intros _ _. apply accumulates_extract_current. }
    apply M_bind_inv in H2 as [(w2 & a & H2 & H3) | (e' & H2 & _)].
    + discriminate.
    + destruct (Hsingle _ _ _ Hw0 H2) as (Hw & Hfiles & _).
      split; assumption.
Qed.

End Run.

(** *** C10 *)

(** C10: when the run ends with an exception, no file has been written
    and the accumulated records deduplicate without an error.  If the
    exception is the interrupt, [main] writes the deduplicated records to
    "mcp-so-partial.json" (unless there are none) and ends with status 0;
    every accumulated record has a record with its key in that file.  Any
    other exception ends with status 1 and no file.  The fallback file is
    not the file a complete run writes. *)
Theorem interrupt_saves_partial_results
    (json_loads : string -> result pyval) (br : browser) (mode : run_mode)
    (max_pages : Z) (output : string) (files0 : gmap string (list pyval))
    (w : world) (e : exn) :
  run json_loads br mode max_pages
    {| servers := []; reads := 0; files := files0 |} = (w, Raise e) ->
  files w = files0
  /\ partial_filename <> default_filename
  /\ exists unique,
       dedupe (servers w) = Ok unique
       /\ (forall r, r ∈ servers w ->
             exists r', r' ∈ unique /\ record_key r' = record_key r)
       /\ main json_loads br mode max_pages output files0
          = match e with
            | KeyboardInterrupt =>
                (match servers w with
                 | [] => w
                 | _ => {| servers := servers w; reads := reads w;
                           files := <[partial_filename := unique]> (files w) |}
                 end, Exit 0)
            | _ => (w, Exit 1)
            end.
Proof.
  intros Hrun.
  destruct (run_Raise json_loads br mode max_pages
              {| servers := []; reads := 0; files := files0 |} w e
              (Forall_nil_2 _) Hrun) as [Hw Hfiles].
  split; [exact Hfiles|]. split; [discriminate|].
  destruct (save_data_storable partial_filename w Hw)
    as (unique & Hd & Hsave & Hall).
  exists unique. split; [exact Hd|]. split; [exact Hall|].
  unfold main. rewrite (M_bind_Raise _ _ _ _ _ Hrun).
  destruct e; try reflexivity.
  destruct (servers w) eqn:Es; [reflexivity|].
  rewrite Hsave. reflexivity.
Qed.

Lemma interrupt_saves_partial_results_witness :
  let json_loads := fun _ : string => Raise ValueError in
  let item := {| href_attr := Some "/server/x/y"; get_text := "X";
                 find_parent := None |} in
  let page := {| anchors := [item]; next_data_scripts := [] |} in
  let br := {| setup_driver := Ok tt;
               load_page := fun _ => Ok tt;
               page_source := fun k => match k with
                                       | O => Ok page
                                       | S _ => Raise KeyboardInterrupt
                                       end |} in
  let record := PDict (url_fields "/server/x/y"
                         (<["url" := PStr "https://mcp.so/server/x/y"]>
                            (<["name" := PStr "X"]> ∅))) in
  main json_loads br ModeAll 5 "out.json" ∅
  = ({| servers := [record]; reads := 2;
        files := <[partial_filename := [record]]> ∅ |}, Exit 0).
Proof.
  intros json_loads item page br record.
  destruct (interrupt_saves_partial_results json_loads br ModeAll 5
              "out.json" ∅
              {| servers := [record]; reads := 2; files := ∅ |}
              KeyboardInterrupt)
    as (_ & _ & unique & Hd & _ & Hmain).
  - vm_compute. reflexivity.
  - rewrite Hmain. cbn [servers reads files].
    assert (Hu : unique = [record]).
    { cbn [servers] in Hd. vm_compute in Hd. injection Hd as <-.
      vm_compute. reflexivity. }
    rewrite Hu. reflexivity.
Defined.

(** ** More on the deduplication loop *)

Section DedupeMore.

Implicit Types (l out : list pyval) (r : pyval) (seen : gset hkey).

Lemma storable_hkey_of r : storable r <-> exists h, hkey_of r = Some h.
Proof.
  unfold storable. split; intros [h Hh]; exists h; apply hkey_of_Some, Hh.
Qed.

(** A list of records with new, pairwise different keys is kept whole. *)
Lemma keep_first_fixed seen l :
  Forall storable l ->
  NoDup (hkey_of <$> l) ->
  (forall r h, r ∈ l -> hkey_of r = Some h -> h ∉ seen) ->
  keep_first seen l = l.
Proof.
  revert seen. induction l as [|x l IH]; intros seen Hst Hnd Hnew;
    [reflexivity|].
  apply Forall_cons in Hst as [[h Hh]%storable_hkey_of Hst].
  rewrite fmap_cons in Hnd. apply NoDup_cons in Hnd as [Hx Hnd].
  cbn [keep_first]. rewrite Hh.
  rewrite bool_decide_eq_true_2
    by (apply (Hnew x h); [left|exact Hh]).
  f_equal. apply IH; [exact Hst|exact Hnd|].
  intros r h' Hr Hh'. apply not_elem_of_union. split.
  - apply not_elem_of_singleton. intros ->. apply Hx.
    rewrite Hh, <- Hh'. apply list_elem_of_fmap. eauto.
  - apply (Hnew r h'); [right; exact Hr|exact Hh'].
Qed.

Lemma record_key_Raise r e :
  record_key r = Raise e <->
  (e = AttributeError /\ is_dict r = false)
  \/ (e = TypeError
      /\ exists key, identity_key r = Ok key
           /\ truthy key = true /\ unhashable key = true).
Proof.
  split.
  - destruct r as [| | | | |d];
      try (intros [= <-]; left; split; reflexivity).
    unfold record_key. rewrite identity_key_dict.
    cbn [mbind result_bind].
    remember (match d !! "url" with
              | Some u => u
              | None => default (PStr "") (d !! "name")
              end) as key eqn:Ek.
    destruct (truthy key) eqn:Ht; [|discriminate].
    intros Hraise. right.
    assert (Hu : unhashable key = true /\ e = TypeError).
    { destruct key; simpl in Hraise; try discriminate;
        injection Hraise as <-; split; reflexivity. }
    destruct Hu as [Hu ->]. split; [reflexivity|].
    exists key. auto.
  - unfold record_key. intros [[-> Hr] | (-> & key & Hk & Ht & Hu)].
    + destruct r; try discriminate; reflexivity.
    + rewrite Hk. simpl. rewrite Ht.
      destruct key; try discriminate; reflexivity.
Qed.

(** The loop raises what the first record it cannot key raises. *)
Lemma dedupe_Raise_first l e :
  dedupe l = Raise e <->
  exists l1 r l2, l = l1 ++ r :: l2 /\ Forall keyed l1
    /\ record_key r = Raise e.
Proof.
  split.
  - induction l as [|x l IH] using rev_ind; [discriminate|].
    rewrite dedupe_snoc. destruct (dedupe l) as [out|e'] eqn:Hd.
    + apply dedupe_Ok in Hd as [Hk _]. cbn [mbind result_bind].
      destruct (record_key x) as [k|e'] eqn:Hx; [discriminate|].
      intros [= ->]. exists l, x, []. auto.
    + intros [= ->]. destruct (IH eq_refl) as (l1 & r & l2 & -> & Hk & Hr).
      exists l1, r, (l2 ++ [x]). rewrite <- app_assoc. auto.
  - intros (l1 & r & l2 & -> & Hk & Hr).
    unfold dedupe. rewrite for_each_app, (loop_keyed l1 ∅ [] Hk).
    cbn [mbind result_bind for_each]. rewrite dedupe_step_key, Hr.
    reflexivity.
Qed.

End DedupeMore.

(** X1.  The keys of the output of [dedupe] are the truthy keys of the
    input: no key is lost and none appears that the input did not
    have. *)
Theorem dedupe_same_keys (l out : list pyval) (h : hkey) :
  dedupe l = Ok out ->
  (exists r, r ∈ out /\ record_key r = Ok (Some h))
  <-> (exists r, r ∈ l /\ record_key r = Ok (Some h)).
Proof.
  intros [_ ->]%dedupe_Ok. split.
  - intros (r & Hr & Hh). exists r. split; [|exact Hh].
    apply (elem_of_keep_first _ _ _ Hr).
  - intros (r & Hr & Hh).
    destruct (keep_first_complete ∅ l r h Hr) as (r' & Hin & Hk);
      [apply hkey_of_Some, Hh | set_solver |].
    exists r'. split; [exact Hin|]. apply hkey_of_Some, Hk.
Qed.

Lemma dedupe_same_keys_witness :
  let a := mkdict [("url", PStr "u"); ("name", PStr "first")] in
  let b := mkdict [("url", PStr "u"); ("name", PStr "second")] in
  (exists r, r ∈ [a] /\ record_key r = Ok (Some (HStr "u")))
  <-> (exists r, r ∈ [a; b] /\ record_key r = Ok (Some (HStr "u"))).
Proof.
  intros a b. apply (dedupe_same_keys [a; b] [a] (HStr "u")).
  vm_compute. reflexivity.
Defined.

(** X2.  [dedupe] returns its input unchanged exactly when every record
    of the input has a truthy, hashable key and no two records have the
    same key. *)
Theorem dedupe_fixed_point (l : list pyval) :
  dedupe l = Ok l <-> Forall storable l /\ NoDup (record_key <$> l).
Proof.
  split.
  - intros H. pose proof (dedupe_out_storable _ _ H) as Hst.
    split; [exact Hst|]. destruct (dedupe_Ok _ _ H) as [Hk Hl].
    rewrite Hl, (record_key_fmap_keyed _ (keep_first_keyed _ _)).
    apply (@NoDup_fmap_2 _ _ Ok (inj_Ok _)), keep_first_NoDup.
  - intros [Hst Hnd].
    assert (Hk : Forall keyed l)
      by (eapply Forall_impl; [exact Hst|apply storable_keyed]).
    rewrite (dedupe_keyed _ Hk). f_equal.
    apply keep_first_fixed; [exact Hst| |set_solver].
    rewrite (record_key_fmap_keyed _ Hk) in Hnd.
    apply (NoDup_fmap_1 Ok), Hnd.
Qed.

Lemma dedupe_fixed_point_witness :
  let a := mkdict [("url", PStr "u")] in
  let b := mkdict [("name", PStr "n")] in
  Forall storable [a; b] /\ NoDup (record_key <$> [a; b]).
Proof.
  intros a b. apply (proj1 (dedupe_fixed_point [a; b])).
  vm_compute. reflexivity.
Defined.

(** X3.  Appending records to the input never changes what was kept
    before: the output for [l1 ++ l2] starts with the output for [l1],
    and goes on with records of [l2] whose keys [l1] does not have; an
    exception on [l1] is the exception on [l1 ++ l2]. *)
Theorem dedupe_app (l1 l2 : list pyval) :
  (forall e, dedupe l1 = Raise e -> dedupe (l1 ++ l2) = Raise e)
  /\ (forall out1 out, dedupe l1 = Ok out1 -> dedupe (l1 ++ l2) = Ok out ->
        exists out2, out = out1 ++ out2 /\ sublist out2 l2
          /\ forall r r1, r ∈ out2 -> r1 ∈ l1 ->
               record_key r1 <> record_key r).
Proof.
  split.
  - intros e (k1 & r & k2 & -> & Hk & Hr)%dedupe_Raise_first.
    apply dedupe_Raise_first. exists k1, r, (k2 ++ l2).
    rewrite <- app_assoc. auto.
  - intros out1 out [Hk1 ->]%dedupe_Ok [_ ->]%dedupe_Ok.
    rewrite keep_first_app. eexists. split; [reflexivity|].
    split; [apply keep_first_sublist|].
    intros r r1 (_ & h & Hh & Hnew)%elem_of_keep_first Hr1 Heq.
    apply Hnew, elem_of_union. left. apply elem_of_keyset.
    exists r1. split; [exact Hr1|]. apply hkey_of_Some.
    rewrite Heq. apply hkey_of_Some, Hh.
Qed.

Lemma dedupe_app_witness :
  dedupe ([PInt 3] ++ [mkdict [("url", PStr "u")]]) = Raise AttributeError.
Proof.
  apply (proj1 (dedupe_app [PInt 3] [mkdict [("url", PStr "u")]])).
  reflexivity.
Defined.

(** X4.  [dedupe] raises only [AttributeError] and [TypeError], and it
    raises at the first record that is not a dictionary
    ([AttributeError]) or whose key is a non-empty list or dictionary
    ([TypeError]). *)
Theorem dedupe_raises (l : list pyval) (e : exn) :
  dedupe l = Raise e <->
  exists l1 r l2,
    l = l1 ++ r :: l2
    /\ Forall keyed l1
    /\ ((e = AttributeError /\ is_dict r = false)
        \/ (e = TypeError
            /\ exists key, identity_key r = Ok key
                 /\ truthy key = true /\ unhashable key = true)).
Proof.
  rewrite dedupe_Raise_first. split.
  - intros (l1 & r & l2 & Hl & Hk & Hr). exists l1, r, l2.
    split; [exact Hl|]. split; [exact Hk|]. apply record_key_Raise, Hr.
  - intros (l1 & r & l2 & Hl & Hk & Hr). exists l1, r, l2.
    split; [exact Hl|]. split; [exact Hk|]. apply record_key_Raise, Hr.
Qed.

Lemma dedupe_raises_witness :
  exists l1 r l2,
    [mkdict [("url", PStr "u")]; mkdict [("url", PList [PInt 1])]]
    = l1 ++ r :: l2
    /\ Forall keyed l1
    /\ ((TypeError = AttributeError /\ is_dict r = false)
        \/ (TypeError = TypeError
            /\ exists key, identity_key r = Ok key
                 /\ truthy key = true /\ unhashable key = true)).
Proof.
  apply (proj1 (dedupe_raises
                  [mkdict [("url", PStr "u")];
                   mkdict [("url", PList [PInt 1])]] TypeError)).
  vm_compute. reflexivity.
Defined.

(** X5.  A record whose [url] field is present with a falsy value
    ([None], [False], 0, an empty string, list or dictionary) is dropped,
    whatever its [name]; so is a record without [url] whose [name] is
    absent or falsy. *)
Theorem falsy_key_is_dropped
    (earlier later : list pyval) (d : gmap string pyval) :
  (exists u, d !! "url" = Some u /\ truthy u = false)
  \/ (d !! "url" = None /\ d !! "name" = None)
  \/ (d !! "url" = None /\ exists n, d !! "name" = Some n /\ truthy n = false) ->
  dedupe (earlier ++ PDict d :: later) = dedupe (earlier ++ later).
Proof.
  intros H. apply dedupe_skip.
  destruct H as [(u & Hu & Ht) | [[Hu Hn] | (Hu & n & Hn & Ht)]].
  - apply (record_key_falsy _ u); [|exact Ht].
    rewrite identity_key_dict, Hu. reflexivity.
  - apply (record_key_falsy _ (PStr "")); [|reflexivity].
    rewrite identity_key_dict, Hu, Hn. reflexivity.
  - apply (record_key_falsy _ n); [|exact Ht].
    rewrite identity_key_dict, Hu, Hn. reflexivity.
Qed.

Lemma falsy_key_is_dropped_witness :
  dedupe ([] ++ mkdict [("url", PNone); ("name", PStr "x")] :: [])
  = dedupe ([] ++ []).
Proof.
  apply (falsy_key_is_dropped [] []).
  left. exists PNone. split; reflexivity.
Defined.

(** ** More on the records of the anchors *)

Section AnchorRecords.

Implicit Types (link : anchor) (href : string) (server : gmap string pyval)
  (c : ascii).

Lemma string_record_insert k text server :
  k ∈ record_fields -> string_record server ->
  string_record (<[k := PStr text]> server).
Proof.
  intros Hk Hs k' v. rewrite lookup_insert_Some.
  intros [[<- <-] | [_ H]]; [split; [exact Hk|reflexivity] | apply Hs, H].
Qed.

Lemma string_record_set_field k o server :
  k ∈ record_fields -> string_record server ->
  string_record (set_field k o server).
Proof.
  intros Hk Hs. destruct o; [apply string_record_insert; assumption|exact Hs].
Qed.

Lemma in_record_fields k : In k record_fields -> k ∈ record_fields.
Proof. apply list_elem_of_In. Qed.

Ltac known_field := apply in_record_fields; simpl; tauto.

Lemma string_record_link_server link server :
  link_server link = Some server -> string_record server.
Proof.
  unfold link_server. destruct (String.eqb _ "/servers"); [discriminate|].
  intros [= <-]. unfold url_fields.
  assert (Hbase : string_record
            (<["url" := PStr (server_url (default "" (href_attr link)))]>
               (<["name" := PStr (get_text link)]> ∅))).
  { apply string_record_insert; [known_field|].
    apply string_record_insert; [known_field|].
    intros k v. rewrite lookup_empty. discriminate. }
  assert (Henriched : string_record
            match find_parent link with
            | Some c => enrich c
                (<["url" := PStr (server_url (default "" (href_attr link)))]>
                   (<["name" := PStr (get_text link)]> ∅))
            | None => <["url" := PStr (server_url (default "" (href_attr link)))]>
                        (<["name" := PStr (get_text link)]> ∅)
            end).
  { destruct (find_parent link); [|exact Hbase]. unfold enrich.
    repeat (apply string_record_set_field; [known_field|]). exact Hbase. }
  cbn zeta. case_bool_decide; [|exact Henriched].
  destruct (index_from_end
              (split slash (strip slash (default "" (href_attr link)))) 2),
    (index_from_end
       (split slash (strip slash (default "" (href_attr link)))) 1);
    try exact Henriched.
  repeat (apply string_record_insert; [known_field|]). exact Henriched.
Qed.

Lemma server_url_http href : startswith "http" (server_url href) = true.
Proof.
  unfold server_url. destruct (startswith "http" href) eqn:E; simpl;
    [exact E|reflexivity].
Qed.

Lemma find_first {A : Type} (p : A -> bool) (l : list A) (x : A) :
  List.find p l = Some x <->
  exists before after, l = before ++ x :: after /\ p x = true
    /\ forall y, y ∈ before -> p y = false.
Proof.
  induction l as [|a l IH]; simpl.
  - split; [discriminate|]. intros ([|? ?] & ? & ? & _); discriminate.
  - destruct (p a) eqn:Ea.
    + split.
      * intros [= ->]. exists [], l. split; [reflexivity|].
        split; [exact Ea|]. intros y Hy. inversion Hy.
      * intros ([|b before] & after & E & Hx & Hb).
        -- injection E as -> _. reflexivity.
        -- injection E as -> _. rewrite (Hb b) in Ea; [discriminate|left].
    + rewrite IH. split.
      * intros (before & after & -> & Hx & Hb). exists (a :: before), after.
        split; [reflexivity|]. split; [exact Hx|].
        intros y [->|Hy]%elem_of_cons; [exact Ea|apply Hb, Hy].
      * intros ([|b before] & after & E & Hx & Hb).
        -- injection E as -> _. congruence.
        -- injection E as -> ->. exists before, after.
           split; [reflexivity|]. split; [exact Hx|].
           intros y Hy. apply Hb. right. exact Hy.
Qed.

Lemma set_field_eq k o server :
  set_field k o server !! k
  = match o with Some text => Some (PStr text) | None => server !! k end.
Proof.
  unfold set_field. destruct o; [apply lookup_insert_eq|reflexivity].
Qed.

(** The parts of a split string hold no separator. *)
Lemma split_parts_no_sep c (s : string) :
  Forall (fun seg => has_char c seg = false) (split c s).
Proof.
  induction s as [|a s IH]; simpl.
  - constructor; [reflexivity|constructor].
  - destruct (Ascii.eqb a c) eqn:Ea.
    + constructor; [reflexivity|exact IH].
    + destruct (split c s) as [|seg segs]; [repeat constructor; simpl;
        rewrite Ea; reflexivity|].
      apply Forall_cons in IH as [Hseg Hsegs].
      constructor; [simpl; rewrite Ea, Hseg; reflexivity|exact Hsegs].
Qed.

(** A right-stripped string that is not empty does not end in an empty
    part. *)
Lemma rstrip_last_part c (s : string) :
  rstrip c s <> EmptyString ->
  last (split c (rstrip c s)) <> Some EmptyString.
Proof.
  induction s as [|a s IH]; simpl; [congruence|].
  destruct (rstrip c s) as [|b t] eqn:Er.
  - destruct (Ascii.eqb a c) eqn:Ea; [congruence|].
    intros _. simpl. rewrite Ea. simpl. discriminate.
  - intros _. specialize (IH ltac:(discriminate)).
    change (split c (String a (String b t)))
      with (if Ascii.eqb a c then EmptyString :: split c (String b t)
            else match split c (String b t) with
                 | [] => [String a EmptyString]
                 | seg :: segs => String a seg :: segs
                 end).
    pose proof (split_not_nil c (String b t)) as Hne.
    destruct (split c (String b t)) as [|seg segs]; [contradiction|].
    destruct (Ascii.eqb a c).
    + rewrite last_cons_cons. exact IH.
    + destruct segs as [|seg' segs].
      * simpl. discriminate.
      * rewrite last_cons_cons. rewrite last_cons_cons in IH. exact IH.
Qed.

Lemma strip_last_part c (s : string) front p :
  split c (strip c s) = front ++ [p] -> front <> [] -> p <> EmptyString.
Proof.
  unfold strip. intros E Hfront ->.
  destruct (String.eqb_spec (rstrip c (lstrip c s)) EmptyString) as [E0|Hne].
  - rewrite E0 in E. simpl in E. destruct front as [|? [|? ?]];
      [contradiction|discriminate..].
  - apply (rstrip_last_part c _ Hne). rewrite E. apply last_snoc.
Qed.

End AnchorRecords.

(** X6.  The record of an anchor has no field beyond [name], [url],
    [description], [author], [installCommand], [slug] and
    [authorFromUrl]; every field holds a string; [name] is the text of
    the anchor and [url] always starts with "http". *)
Theorem anchor_record_shape (link : anchor) (server : gmap string pyval) :
  link_server link = Some server ->
  (forall k v, server !! k = Some v ->
     k ∈ record_fields /\ is_str v = true)
  /\ server !! "name" = Some (PStr (get_text link))
  /\ exists url, server !! "url" = Some (PStr url)
       /\ startswith "http" url = true.
Proof.
  intros Hs. split; [apply (string_record_link_server link), Hs|].
  unfold link_server in Hs.
  destruct (String.eqb _ "/servers"); [discriminate|].
  injection Hs as <-.
  assert (Hkeep : forall k (base : gmap string pyval),
            k <> "description" -> k <> "author" -> k <> "installCommand" ->
            match find_parent link with
            | Some c => enrich c base
            | None => base
            end !! k = base !! k).
  { intros k base H1 H2 H3. destruct (find_parent link);
      [apply enrich_other; assumption|reflexivity]. }
  split.
  - rewrite url_fields_other, Hkeep by discriminate. lookup_record.
    reflexivity.
  - eexists. split.
    + rewrite url_fields_other, Hkeep by discriminate. lookup_record.
      reflexivity.
    + apply server_url_http.
Qed.

Lemma anchor_record_shape_witness :
  let link := {| href_attr := Some "/server/x/y"; get_text := "X";
                 find_parent := Some {| desc_elem := Some "about";
                                        author_elem := None;
                                        code_blocks := ["npx x"] |} |} in
  exists server,
    link_server link = Some server
    /\ (forall k v, server !! k = Some v ->
          k ∈ record_fields /\ is_str v = true)
    /\ server !! "name" = Some (PStr "X")
    /\ exists url, server !! "url" = Some (PStr url)
         /\ startswith "http" url = true.
Proof.
  intros link. destruct (link_server link) as [server|] eqn:E;
    [|vm_compute in E; discriminate].
  exists server. split; [reflexivity|].
  apply (anchor_record_shape link server E).
Defined.

(** X7.  Without an enclosing container the record has no [description],
    [author] or [installCommand].  With one, [description] and [author]
    are the texts found in it, when found, and [installCommand] is the
    first code block whose text contains "npx", "npm install" or "uvx";
    when no block does, the field is not set. *)
Theorem enrichment_from_container
    (link : anchor) (server : gmap string pyval) :
  link_server link = Some server ->
  match find_parent link with
  | None =>
      server !! "description" = None
      /\ server !! "author" = None
      /\ server !! "installCommand" = None
  | Some c =>
      server !! "description" = PStr <$> desc_elem c
      /\ server !! "author" = PStr <$> author_elem c
      /\ (forall text,
            server !! "installCommand" = Some (PStr text) <->
            exists before after,
              code_blocks c = before ++ text :: after
              /\ (contains "npx" text || contains "npm install" text
                  || contains "uvx" text) = true
              /\ forall t, t ∈ before ->
                   (contains "npx" t || contains "npm install" t
                    || contains "uvx" t) = false)
      /\ ((forall t, t ∈ code_blocks c -> is_install_command t = false) ->
          server !! "installCommand" = None)
  end.
Proof.
  intros Hs. unfold link_server in Hs.
  destruct (String.eqb _ "/servers"); [discriminate|].
  injection Hs as <-.
  assert (Hcmd : forall t, is_install_command t
                 = (contains "npx" t || contains "npm install" t
                    || contains "uvx" t)).
  { intros t. unfold is_install_command. simpl.
    rewrite orb_false_r, orb_assoc. reflexivity. }
  destruct (find_parent link) as [c|].
  - rewrite !url_fields_other by discriminate. unfold enrich.
    split; [|split; [|split]].
    + rewrite !set_field_ne by discriminate. rewrite set_field_eq.
      destruct (desc_elem c); [reflexivity|]. lookup_record. reflexivity.
    + rewrite set_field_ne by discriminate. rewrite set_field_eq.
      destruct (author_elem c); [reflexivity|].
      rewrite set_field_ne by discriminate. lookup_record. reflexivity.
    + intros text. rewrite set_field_eq.
      destruct (List.find is_install_command (code_blocks c)) as [t|] eqn:Ef.
      * split.
        -- intros [= ->]. apply find_first in Ef
             as (before & after & E & Hx & Hb).
           exists before, after. split; [exact E|].
           split; [rewrite <- Hcmd; exact Hx|].
           intros t Ht. rewrite <- Hcmd. apply Hb, Ht.
        -- intros (before & after & E & Hx & Hb).
           assert (Ef' : List.find is_install_command (code_blocks c)
                         = Some text).
           { apply find_first. exists before, after. split; [exact E|].
             split; [rewrite Hcmd; exact Hx|].
             intros y Hy. rewrite Hcmd. apply Hb, Hy. }
           congruence.
      * rewrite !set_field_ne by discriminate. lookup_record.
        split; [discriminate|].
        intros (before & after & E & Hx & _).
        pose proof (find_none _ _ Ef text) as Hn.
        rewrite Hcmd, Hx in Hn. discriminate Hn.
        rewrite E. apply in_elt.
    + intros Hnone. rewrite set_field_eq.
      destruct (List.find is_install_command (code_blocks c)) as [t|] eqn:Ef.
      * apply find_some in Ef as [Hin Ht].
        rewrite (Hnone t) in Ht; [discriminate|apply list_elem_of_In, Hin].
      * rewrite !set_field_ne by discriminate. lookup_record. reflexivity.
  - rewrite !url_fields_other by discriminate. lookup_record.
    repeat split; reflexivity.
Qed.

Lemma enrichment_from_container_witness :
  let box := {| desc_elem := Some "about"; author_elem := None;
                code_blocks := ["ls"; "npx x"; "uvx y"] |} in
  let link := {| href_attr := Some "/server/x/y"; get_text := "X";
                 find_parent := Some box |} in
  exists server,
    link_server link = Some server
    /\ server !! "description" = Some (PStr "about")
    /\ server !! "author" = None
    /\ server !! "installCommand" = Some (PStr "npx x").
Proof.
  intros box link. destruct (link_server link) as [server|] eqn:E;
    [|vm_compute in E; discriminate].
  exists server. split; [reflexivity|].
  pose proof (enrichment_from_container link server E) as H.
  cbn [find_parent link] in H. destruct H as (Hd & Ha & Hi & _).
  split; [exact Hd|]. split; [exact Ha|].
  apply Hi. exists ["ls"], ["uvx y"]. split; [reflexivity|].
  split; [reflexivity|].
  intros t [->|Ht]%elem_of_cons; [reflexivity|inversion Ht].
Defined.

(** X8.  When [slug] and [authorFromUrl] are set, neither contains "/",
    and [authorFromUrl] is not empty; the two fields are set together or
    not at all. *)
Theorem slug_and_author_shape
    (link : anchor) (href : string) (server : gmap string pyval) :
  href_attr link = Some href ->
  link_server link = Some server ->
  (server !! "slug" = None /\ server !! "authorFromUrl" = None)
  \/ exists slug author,
       server !! "slug" = Some (PStr slug)
       /\ server !! "authorFromUrl" = Some (PStr author)
       /\ has_char slash slug = false
       /\ has_char slash author = false
       /\ author <> EmptyString.
Proof.
  intros Hhref Hs.
  destruct (link_server_fields _ _ _ Hhref Hs) as (_ & _ & _ & Hparts & Hshort).
  cbn zeta in Hparts, Hshort.
  destruct (decide (length (split slash (strip slash href)) < 3)) as [Hlt|Hge].
  - left. apply Hshort, Hlt.
  - right. destruct (last_two (split slash (strip slash href)))
      as (front & p2 & p1 & E); [lia|].
    assert (Hfront : front <> []).
    { intros ->. rewrite E in Hge. simpl in Hge. lia. }
    destruct (Hparts front p2 p1 E Hfront) as [Hslug Hauthor].
    exists p2, p1. split; [exact Hslug|]. split; [exact Hauthor|].
    pose proof (split_parts_no_sep slash (strip slash href)) as Hno.
    rewrite E in Hno. apply Forall_app in Hno as [_ Hno].
    apply Forall_cons in Hno as [H2 Hno]. apply Forall_cons in Hno as [H1 _].
    split; [exact H2|]. split; [exact H1|].
    apply (strip_last_part slash href (front ++ [p2]) p1).
    + rewrite E, <- app_assoc. reflexivity.
    + destruct front; discriminate.
Qed.

Lemma slug_and_author_shape_witness :
  let link := {| href_attr := Some "https://mcp.so/server/x//y/";
                 get_text := "X"; find_parent := None |} in
  exists server,
    link_server link = Some server
    /\ ((server !! "slug" = None /\ server !! "authorFromUrl" = None)
        \/ exists slug author,
             server !! "slug" = Some (PStr slug)
             /\ server !! "authorFromUrl" = Some (PStr author)
             /\ has_char slash slug = false
             /\ has_char slash author = false
             /\ author <> EmptyString).
Proof.
  intros link. destruct (link_server link) as [server|] eqn:E;
    [|vm_compute in E; discriminate].
  exists server. split; [reflexivity|].
  apply (slug_and_author_shape link "https://mcp.so/server/x//y/" server);
    [reflexivity|exact E].
Defined.

(** ** More on the extraction of a page *)

Lemma elem_of_concat {A : Type} (x : A) (ls : list (list A)) :
  x ∈ concat ls <-> exists l, x ∈ l /\ l ∈ ls.
Proof.
  rewrite list_elem_of_In, in_concat. split.
  - intros (l & Hl & Hx). exists l. split; apply list_elem_of_In; assumption.
  - intros (l & Hx & Hl). exists l. split; apply list_elem_of_In; assumption.
Qed.





(** X10.  The record kept for the url of an anchor is a record of the
    anchor loop: a record from embedded JSON with the same url never
    replaces it. *)
Theorem anchor_record_wins
    (json_loads : string -> result pyval) (doc : soup) (out : list pyval)
    (link : anchor) (href : string) (r : pyval) :
  extract_servers_from_page json_loads doc = Ok out ->
  link ∈ anchors doc ->
  href_attr link = Some href ->
  contains "/server/" href = true ->
  r ∈ out ->
  identity_key r = Ok (PStr (server_url href)) ->
  r ∈ link_servers doc.
Proof.
  intros Hout Hin Hhref Hseg Hr Hkey.
  unfold extract_servers_from_page in Hout. apply dedupe_Ok in Hout as [_ ->].
  assert (Hanchor : exists a, a ∈ link_servers doc
            /\ hkey_of a = Some (HStr (server_url href))).
  { assert (Hsel : link ∈ List.filter has_server_segment (anchors doc)).
    { apply list_elem_of_In, filter_In.
      split; [apply list_elem_of_In, Hin|].
      unfold has_server_segment. rewrite Hhref. exact Hseg. }
    pose proof (link_servers_anchors (anchors doc)) as Hall.
    fold (link_servers doc) in Hall.
    apply list_elem_of_lookup in Hsel as [i Hi].
    destruct (Forall2_lookup_l _ _ _ _ _ Hall Hi)
      as (a & Ha & server & Hs & ->).
    exists (PDict server). split; [apply list_elem_of_lookup; eauto|].
    apply hkey_of_Some, (identity_key_link link href server Hhref Hs). }
  destruct Hanchor as (a & Ha & Hka).
  assert (Hkr : hkey_of r = Some (HStr (server_url href))).
  { destruct (elem_of_keep_first _ _ _ Hr) as (_ & h & Hh & _).
    rewrite Hh. apply hkey_of_Some, record_key_truthy in Hh
      as (key & Hk1 & _ & Hk2).
    rewrite Hkey in Hk1. injection Hk1 as <-. simpl in Hk2. congruence. }
  destruct (keep_first_first _ _ _ Hr) as (l1 & l2 & E & Hl1).
  rewrite collect_servers_scripts in E.
  apply app_eq_inv in E as [(k & E1 & E2) | (k & E1 & E2)].
  - rewrite E1. destruct k as [|x k].
    + exfalso. apply (Hl1 a); [|congruence].
      rewrite app_nil_r in E1. rewrite <- E1. exact Ha.
    + injection E2 as -> _. apply elem_of_app. right. left.
  - exfalso. apply (Hl1 a); [|congruence].
    rewrite E1. apply elem_of_app. left. exact Ha.
Qed.

Lemma anchor_record_wins_witness :
  let json_loads := fun _ : string =>
    Ok (mkdict [("props", mkdict [("pageProps",
          mkdict [("servers",
            PList [mkdict [("url", PStr "https://mcp.so/server/x/y");
                           ("name", PStr "from json")]])])])]) in
  let item := {| href_attr := Some "/server/x/y"; get_text := "X";
                 find_parent := None |} in
  let doc := {| anchors := [item]; next_data_scripts := [Some "data"] |} in
  let record := PDict (url_fields "/server/x/y"
                         (<["url" := PStr "https://mcp.so/server/x/y"]>
                            (<["name" := PStr "X"]> ∅))) in
  record ∈ link_servers doc.
Proof.
  intros json_loads item doc record.
  apply (anchor_record_wins json_loads doc [record] item "/server/x/y").
  - vm_compute. reflexivity.
  - left.
  - reflexivity.
  - reflexivity.
  - left.
  - vm_compute. reflexivity.
Defined.

(** X11.  The extraction of a page returns exactly when every record the
    scripts add can be keyed; the anchors alone never make it raise, and
    what it raises is an [AttributeError] or a [TypeError]. *)
Theorem extraction_raises_only_on_json
    (json_loads : string -> result pyval) (doc : soup) :
  ((exists out, extract_servers_from_page json_loads doc = Ok out)
   <-> forall script r,
         script ∈ next_data_scripts doc ->
         r ∈ extend_from_script json_loads [] script ->
         keyed r)
  /\ (next_data_scripts doc = [] ->
      exists out, extract_servers_from_page json_loads doc = Ok out)
  /\ (forall e, extract_servers_from_page json_loads doc = Raise e ->
        e = AttributeError \/ e = TypeError).
Proof.
  assert (Hiff : (exists out, extract_servers_from_page json_loads doc = Ok out)
            <-> forall script r,
                  script ∈ next_data_scripts doc ->
                  r ∈ extend_from_script json_loads [] script ->
                  keyed r).
  { unfold extract_servers_from_page. rewrite collect_servers_scripts. split.
    - intros [out [Hk _]%dedupe_Ok] script r Hs Hr.
      apply Forall_app in Hk as [_ Hk]. rewrite Forall_forall in Hk.
      apply Hk, elem_of_concat. eexists. split; [exact Hr|].
      apply list_elem_of_fmap. eauto.
    - intros Hall. eexists. apply dedupe_keyed, Forall_app.
      split; [apply link_servers_keyed|]. apply Forall_forall.
      intros r (found & Hr & (script & -> & Hs)%list_elem_of_fmap)%elem_of_concat.
      apply (Hall script r Hs Hr). }
  split; [exact Hiff|]. split.
  - intros Hnil. apply Hiff. rewrite Hnil. intros script r Hs. inversion Hs.
  - intros e (l1 & r & l2 & _ & _ & Hr)%dedupe_Raise_first.
    apply record_key_Raise in Hr as [[-> _] | [-> _]]; auto.
Qed.

Lemma extraction_raises_only_on_json_witness :
  let json_loads := fun _ : string => Raise ValueError in
  let item := {| href_attr := Some "/server/x/y"; get_text := "X";
                 find_parent := None |} in
  let doc := {| anchors := [item; item]; next_data_scripts := [] |} in
  exists out, extract_servers_from_page json_loads doc = Ok out.
Proof.
  intros json_loads item doc.
  apply (proj1 (proj2 (extraction_raises_only_on_json json_loads doc))).
  reflexivity.
Defined.

(** X12.  A page without an anchor that has the item-detail segment and
    whose scripts add nothing gives the empty list. *)
Theorem empty_page_gives_no_record
    (json_loads : string -> result pyval) (doc : soup) :
  (forall link, link ∈ anchors doc -> has_server_segment link = false) ->
  (forall script, script ∈ next_data_scripts doc ->
     extend_from_script json_loads [] script = []) ->
  extract_servers_from_page json_loads doc = Ok [].
Proof.
  intros Hlinks Hscripts.
  assert (Hl : link_servers doc = []).
  { unfold link_servers.
    assert (Hf : List.filter is_server_link (anchors doc) = []).
    { induction (anchors doc) as [|a l IH]; [reflexivity|].
      simpl. rewrite is_server_link_segment, (Hlinks a) by left.
      apply IH. intros link Hin. apply Hlinks. right. exact Hin. }
    rewrite Hf. reflexivity. }
  assert (Hs : concat (extend_from_script json_loads []
                         <$> next_data_scripts doc) = []).
  { induction (next_data_scripts doc) as [|s l IH]; [reflexivity|].
    rewrite fmap_cons. simpl. rewrite (Hscripts s) by left.
    apply IH. intros script Hin. apply Hscripts. right. exact Hin. }
  unfold extract_servers_from_page.
  rewrite collect_servers_scripts, Hl, Hs. reflexivity.
Qed.

Lemma empty_page_gives_no_record_witness :
  let json_loads := fun _ : string => Raise ValueError in
  let doc := {| anchors := [{| href_attr := Some "/servers";
                               get_text := "View all";
                               find_parent := None |};
                            {| href_attr := None; get_text := "top";
                               find_parent := None |}];
                next_data_scripts := [Some "{broken"; None] |} in
  extract_servers_from_page json_loads doc = Ok [].
Proof.
  intros json_loads doc. apply (empty_page_gives_no_record json_loads doc).
  - intros link [->|[->|H]%elem_of_cons]%elem_of_cons;
      [reflexivity|reflexivity|inversion H].
  - intros script [->|[->|H]%elem_of_cons]%elem_of_cons;
      [reflexivity|reflexivity|inversion H].
Defined.

(** ** More on the run *)

Section Navigation.

Variable json_loads : string -> result pyval.
Variable br : browser.

(** One iteration of the loop, case by case. *)
Lemma page_loop_S fuel current_page w :
  page_loop json_loads br (S fuel) current_page w
  = let next (ps : list pyval) (k : nat) :=
      let w' := {| servers := servers w ++ ps; reads := k;
                   files := files w |} in
      match load_page br (S current_page) with
      | Ok _ => page_loop json_loads br fuel (S current_page) w'
      | Raise e => (w', Raise e)
      end in
    let stop (k : nat) (r : result unit) :=
      ({| servers := servers w; reads := k; files := files w |}, r) in
    match visit json_loads br (reads w) with
    | Raise e => stop (S (reads w)) (Raise e)
    | Ok [] =>
        match visit json_loads br (S (reads w)) with
        | Raise e => stop (S (S (reads w))) (Raise e)
        | Ok [] => stop (S (S (reads w))) (Ok tt)
        | Ok ps => next ps (S (S (reads w)))
        end
    | Ok ps => next ps (S (reads w))
    end.
Proof.
  cbn [page_loop]. unfold visit.
  unfold mbind at 1. unfold M_bind at 1. unfold extract_current at 1.
  cbn [servers reads files].
  assert (Hnext : forall ps k,
            (extend_servers ps ≫= fun _ : () =>
               lift (load_page br (S current_page)) ≫= fun _ : () =>
                 page_loop json_loads br fuel (S current_page))
              {| servers := servers w; reads := k; files := files w |}
            = match load_page br (S current_page) with
              | Ok _ => page_loop json_loads br fuel (S current_page)
                          {| servers := servers w ++ ps; reads := k;
                             files := files w |}
              | Raise e => ({| servers := servers w ++ ps; reads := k;
                               files := files w |}, Raise e)
              end).
  { intros ps k. unfold mbind, M_bind, extend_servers, lift.
    cbn [servers reads files].
    destruct (load_page br (S current_page)) as [[]|e]; reflexivity. }
  destruct (page_source br (reads w) ≫= _) as [[|p ps]|e]; [| |reflexivity].
  - unfold mbind at 1. unfold M_bind at 1. unfold extract_current at 1.
    cbn [servers reads files].
    destruct (page_source br (S (reads w)) ≫= _) as [[|p ps]|e];
      [reflexivity| |reflexivity].
    apply Hnext.
  - apply Hnext.
Qed.

(** What the loop does to the world, however it ends. *)
Lemma page_loop_trace fuel : forall current_page w w' r,
  page_loop json_loads br fuel current_page w = (w', r) ->
  reads w <= reads w' <= reads w + 2 * fuel
  /\ files w' = files w
  /\ exists added,
       servers w' = servers w ++ added
       /\ forall x, x ∈ added ->
            exists k out, reads w <= k < reads w'
              /\ visit json_loads br k = Ok out /\ x ∈ out.
Proof.
  induction fuel as [|fuel IH]; intros current_page w w' r.
  - intros [= <- <-]. split; [lia|]. split; [reflexivity|].
    exists []. split; [rewrite app_nil_r; reflexivity|].
    intros x Hx. inversion Hx.
  - rewrite page_loop_S. cbn zeta.
    assert (Hstop : forall k r0,
              reads w <= k <= reads w + 2 * S fuel ->
              ({| servers := servers w; reads := k; files := files w |}, r0)
              = (w', r) ->
              reads w <= reads w' <= reads w + 2 * S fuel
              /\ files w' = files w
              /\ exists added,
                   servers w' = servers w ++ added
                   /\ forall x, x ∈ added ->
                        exists k out, reads w <= k < reads w'
                          /\ visit json_loads br k = Ok out /\ x ∈ out).
    { intros k r0 Hk [= <- <-]. cbn [servers reads files].
      split; [exact Hk|]. split; [reflexivity|].
      exists []. split; [rewrite app_nil_r; reflexivity|].
      intros x Hx. inversion Hx. }
    assert (Hnext : forall ps k j,
              visit json_loads br j = Ok ps -> reads w <= j < k ->
              k <= reads w + 2 ->
              match load_page br (S current_page) with
              | Ok _ => page_loop json_loads br fuel (S current_page)
                          {| servers := servers w ++ ps; reads := k;
                             files := files w |}
              | Raise e => ({| servers := servers w ++ ps; reads := k;
                               files := files w |}, Raise e)
              end = (w', r) ->
              reads w <= reads w' <= reads w + 2 * S fuel
              /\ files w' = files w
              /\ exists added,
                   servers w' = servers w ++ added
                   /\ forall x, x ∈ added ->
                        exists k out, reads w <= k < reads w'
                          /\ visit json_loads br k = Ok out /\ x ∈ out).
    { intros ps k j Hj Hjk Hk H.
      destruct (load_page br (S current_page)).
      - destruct (IH _ _ _ _ H) as (Hr & Hf & added & Hs & Hadded).
        cbn [servers reads files] in Hr, Hf, Hs, Hadded.
        split; [lia|]. split; [exact Hf|].
        exists (ps ++ added). split; [rewrite Hs, app_assoc; reflexivity|].
        intros x [Hx|Hx]%elem_of_app.
        + exists j, ps. split; [lia|]. auto.
        + destruct (Hadded x Hx) as (k' & out & Hk' & Hv & Hin).
          exists k', out. split; [lia|]. auto.
      - injection H as <- <-. cbn [servers reads files].
        split; [lia|]. split; [reflexivity|].
        exists ps. split; [reflexivity|].
        intros x Hx. exists j, ps. split; [lia|]. auto. }
    destruct (visit json_loads br (reads w)) as [[|p ps]|e] eqn:E1.
    + destruct (visit json_loads br (S (reads w))) as [[|p ps]|e] eqn:E2.
      * apply Hstop. lia.
      * apply (Hnext (p :: ps) _ (S (reads w)) E2); lia.
      * apply Hstop. lia.
    + apply (Hnext (p :: ps) _ (reads w) E1); lia.
    + apply Hstop. lia.
Qed.

(** [n] pages with records, one read each. *)
Lemma page_loop_nonempty n : forall fuel current_page w,
  (forall p, load_page br p = Ok tt) ->
  (forall k, reads w <= k < reads w + n ->
     exists out, visit json_loads br k = Ok out /\ out <> []) ->
  page_loop json_loads br (n + fuel) current_page w
  = page_loop json_loads br fuel (n + current_page)
      {| servers := servers w ++ page_outputs json_loads br (reads w) n;
         reads := reads w + n; files := files w |}.
Proof.
  induction n as [|n IH]; intros fuel current_page w Hload Hpages.
  - unfold page_outputs. simpl. rewrite app_nil_r, Nat.add_0_r.
    destruct w; reflexivity.
  - cbn [Nat.add]. rewrite page_loop_S. cbn zeta.
    destruct (Hpages (reads w)) as (out & Hv & Hne); [lia|].
    rewrite Hv. destruct out as [|p ps]; [contradiction|].
    rewrite Hload, IH; [|exact Hload|].
    + cbn [servers reads files].
      replace (n + S current_page) with (S (n + current_page)) by lia.
      replace (S (reads w) + n) with (reads w + S n) by lia.
      do 2 f_equal. unfold page_outputs. cbn [seq fmap list_fmap concat].
      rewrite Hv, <- app_assoc. reflexivity.
    + cbn [servers reads files]. intros k Hk. apply Hpages. lia.
Qed.

End Navigation.

Section RunMore.

Variable json_loads : string -> result pyval.
Variable br : browser.

(** [run] in the mode "all", step by step. *)
Lemma run_all_eq max_pages w :
  run json_loads br ModeAll max_pages w
  = match setup_driver br with
    | Raise e => (w, Raise e)
    | Ok _ =>
        match navigate_all_pages json_loads br max_pages w with
        | (w1, Ok _) => save_data default_filename w1
        | (w1, Raise e) => (w1, Raise e)
        end
    end.
Proof.
  unfold run. unfold mbind at 1. unfold M_bind at 1. unfold lift at 1.
  destruct (setup_driver br) as [[]|e]; [|reflexivity].
  unfold mbind at 1. unfold M_bind at 1.
  destruct (navigate_all_pages json_loads br max_pages w) as [w1 [[]|e]];
    reflexivity.
Qed.

Lemma navigate_all_pages_eq max_pages w :
  navigate_all_pages json_loads br max_pages w
  = match load_page br 1 with
    | Ok _ => page_loop json_loads br (Z.to_nat max_pages) 1 w
    | Raise e => (w, Raise e)
    end.
Proof.
  unfold navigate_all_pages, mbind, M_bind, lift.
  destruct (load_page br 1) as [[]|e]; reflexivity.
Qed.

(** A complete run in the mode "all" leaves the deduplicated records in
    the default file. *)
Lemma run_all_Ok max_pages w w1 :
  Forall storable (servers w) ->
  run json_loads br ModeAll max_pages w = (w1, Ok tt) ->
  exists w' unique,
    setup_driver br = Ok tt
    /\ navigate_all_pages json_loads br max_pages w = (w', Ok tt)
    /\ files w' = files w
    /\ dedupe (servers w') = Ok unique
    /\ w1 = {| servers := servers w'; reads := reads w';
               files := <[default_filename := unique]> (files w) |}.
Proof.
  intros Hw. rewrite run_all_eq.
  destruct (setup_driver br) as [[]|e]; [|discriminate].
  destruct (navigate_all_pages json_loads br max_pages w)
    as [w' [[]|e]] eqn:Hnav; [|discriminate].
  destruct (accumulates_navigate_all_pages json_loads br _ _ _ _ Hw Hnav)
    as (Hw' & Hfiles & _).
  destruct (save_data_storable default_filename w' Hw')
    as (unique & Hd & Hsave & _).
  rewrite Hsave. intros [= <-]. exists w', unique.
  rewrite Hfiles. auto.
Qed.

(** What [main] does after [run], case by case. *)
Lemma main_after_run mode max_pages output files0 w1 r :
  run json_loads br mode max_pages
    {| servers := []; reads := 0; files := files0 |} = (w1, r) ->
  exists unique,
    dedupe (servers w1) = Ok unique
    /\ main json_loads br mode max_pages output files0
       = match r with
         | Ok _ =>
             (match mode with
              | ModeAll =>
                  {| servers := servers w1; reads := reads w1;
                     files := <[output := unique]>
                                (delete default_filename files0) |}
              | ModeSingle => w1
              end, Exit 0)
         | Raise KeyboardInterrupt =>
             (match servers w1 with
              | [] => w1
              | _ => {| servers := servers w1; reads := reads w1;
                        files := <[partial_filename := unique]> (files w1) |}
              end, Exit 0)
         | Raise _ => (w1, Exit 1)
         end.
Proof.
  intros Hrun. destruct r as [[]|e].
  - destruct mode.
    + destruct (run_all_Ok max_pages
                  {| servers := []; reads := 0; files := files0 |} w1
                  (Forall_nil_2 _) Hrun)
        as (w' & unique & _ & _ & _ & Hd & ->).
      exists unique. cbn [servers files]. split; [exact Hd|].
      unfold main. unfold mbind at 1. unfold M_bind at 1. rewrite Hrun.
      destruct (String.eqb_spec output default_filename) as [->|Hne];
        cbn [negb].
      * unfold mret, M_ret. rewrite insert_delete_eq. reflexivity.
      * unfold move_file. cbn [files servers reads].
        rewrite lookup_insert_eq, delete_insert_eq. reflexivity.
    + assert (Hs : Forall storable (servers w1)).
      { unfold run in Hrun.
        apply M_bind_inv in Hrun as [(w2 & [] & H1 & H2) | (e & _ & He)];
          [|discriminate].
        injection H1 as <- _.
        apply M_bind_inv in H2 as [(w3 & a & H2 & H3) | (e & _ & He)];
          [|discriminate].
        unfold mret, M_ret in H3. injection H3 as <-.
        assert (Hsingle : accumulates (extract_single_page json_loads br)
                            (Forall storable)).
        { unfold extract_single_page.
          eapply accumulates_bind; [apply accumulates_lift|].
          intros _ _. apply accumulates_extract_current. }
        destruct (Hsingle {| servers := []; reads := 0; files := files0 |}
                    _ _ (Forall_nil_2 _) H2) as [Hs _].
        exact Hs. }
      destruct (save_data_storable partial_filename w1 Hs)
        as (unique & Hd & _ & _).
      exists unique. split; [exact Hd|].
      unfold main. unfold mbind at 1. unfold M_bind at 1. rewrite Hrun.
      reflexivity.
  - destruct (run_Raise json_loads br mode max_pages
                {| servers := []; reads := 0; files := files0 |} w1 e
                (Forall_nil_2 _) Hrun) as [Hs _].
    destruct (save_data_storable partial_filename w1 Hs)
      as (unique & Hd & Hsave & _).
    exists unique. split; [exact Hd|].
    unfold main. rewrite (M_bind_Raise _ _ _ _ _ Hrun).
    destruct e; try reflexivity.
    destruct (servers w1) eqn:Es; [reflexivity|].
    rewrite Hsave. reflexivity.
Qed.

(** The loop over [n] pages with records. *)
Lemma navigate_pages max_pages w n stop :
  (forall p, load_page br p = Ok tt) ->
  (forall k, reads w <= k < reads w + n ->
     exists out, visit json_loads br k = Ok out /\ out <> []) ->
  (n = Z.to_nat max_pages /\ stop = 0)
  \/ (n < Z.to_nat max_pages /\ stop = 2
      /\ visit json_loads br (reads w + n) = Ok []
      /\ visit json_loads br (reads w + n + 1) = Ok []) ->
  navigate_all_pages json_loads br max_pages w
  = ({| servers := servers w ++ page_outputs json_loads br (reads w) n;
        reads := reads w + n + stop; files := files w |}, Ok tt).
Proof.
  intros Hload Hpages Hend. rewrite navigate_all_pages_eq, Hload.
  destruct Hend as [[Hn ->] | (Hn & -> & H1 & H2)].
  - replace (Z.to_nat max_pages) with (n + 0) by lia.
    rewrite (page_loop_nonempty json_loads br n 0 1 w Hload Hpages).
    cbn [page_loop]. rewrite Nat.add_0_r. reflexivity.
  - replace (Z.to_nat max_pages)
      with (n + S (Z.to_nat max_pages - n - 1)) by lia.
    rewrite (page_loop_nonempty json_loads br n _ 1 w Hload Hpages).
    rewrite page_loop_S. cbn [servers reads files]. cbn zeta.
    rewrite H1. replace (S (reads w + n)) with (reads w + n + 1) by lia.
    rewrite H2. do 2 f_equal. lia.
Qed.

End RunMore.

(** X13.  [navigate_all_pages] makes at most two extractions for each
    of the [max_pages] pages, and none when [max_pages] is not positive
    ([reads] counts the extractions, each of which reads the page source
    once); it writes no file; it only appends to [self.servers], and
    what it appends are records that one of its extractions returned. *)
Theorem navigation_trace
    (json_loads : string -> result pyval) (br : browser) (max_pages : Z)
    (w w' : world) (r : result unit) :
  navigate_all_pages json_loads br max_pages w = (w', r) ->
  reads w <= reads w' <= reads w + 2 * Z.to_nat max_pages
  /\ ((max_pages <= 0)%Z -> w' = w)
  /\ files w' = files w
  /\ exists added,
       servers w' = servers w ++ added
       /\ forall x, x ∈ added ->
            exists k out, reads w <= k < reads w'
              /\ visit json_loads br k = Ok out /\ x ∈ out.
Proof.
  rewrite navigate_all_pages_eq. intros H.
  assert (Hzero : (max_pages <= 0)%Z -> w' = w).
  { intros Hle. replace (Z.to_nat max_pages) with 0 in H by lia.
    destruct (load_page br 1); injection H as <- _; reflexivity. }
  destruct (load_page br 1).
  - destruct (page_loop_trace json_loads br _ _ _ _ _ H) as (Hr & Hf & Ha).
    auto.
  - injection H as <- _. split; [lia|]. split; [auto|].
    split; [reflexivity|]. exists []. rewrite app_nil_r.
    split; [reflexivity|]. intros x Hx. inversion Hx.
Qed.

Lemma navigation_trace_witness :
  let json_loads := fun _ : string => Raise ValueError in
  let page := {| anchors := [{| href_attr := Some "/server/x/y";
                                get_text := "X"; find_parent := None |}];
                 next_data_scripts := [] |} in
  let br := {| setup_driver := Ok tt; load_page := fun _ => Ok tt;
               page_source := fun _ => Ok page |} in
  let w := {| servers := []; reads := 0; files := ∅ |} in
  let w' := fst (navigate_all_pages json_loads br 3 w) in
  reads w' <= 6 /\ files w' = ∅.
Proof.
  intros json_loads page br w w'.
  destruct (navigate_all_pages json_loads br 3 w) as [w1 r] eqn:E.
  destruct (navigation_trace json_loads br 3 w w1 r E) as (Hr & _ & Hf & _).
  subst w'. cbn [fst]. split; [apply Hr|exact Hf].
Defined.

(** X14.  When the loads succeed and the first [n] extractions return
    records, one read each is made of them; the loop ends without an
    error after [max_pages] pages, or earlier after two extractions in a
    row that return nothing, and [self.servers] has grown by the records
    of these [n] extractions, in order. *)
Theorem navigation_visits_pages
    (json_loads : string -> result pyval) (br : browser) (max_pages : Z)
    (w : world) (n stop : nat) :
  (forall p, load_page br p = Ok tt) ->
  (forall k, reads w <= k < reads w + n ->
     exists out, visit json_loads br k = Ok out /\ out <> []) ->
  (n = Z.to_nat max_pages /\ stop = 0)
  \/ (n < Z.to_nat max_pages /\ stop = 2
      /\ visit json_loads br (reads w + n) = Ok []
      /\ visit json_loads br (reads w + n + 1) = Ok []) ->
  navigate_all_pages json_loads br max_pages w
  = ({| servers := servers w ++ page_outputs json_loads br (reads w) n;
        reads := reads w + n + stop; files := files w |}, Ok tt).
Proof.
  intros Hload Hpages Hend. rewrite navigate_all_pages_eq, Hload.
  destruct Hend as [[Hn ->] | (Hn & -> & Hfirst & Hsecond)].
  - replace (Z.to_nat max_pages) with (n + 0) by lia.
    rewrite (page_loop_nonempty json_loads br n 0 1 w Hload Hpages).
    cbn [page_loop]. rewrite Nat.add_0_r. reflexivity.
  - replace (Z.to_nat max_pages)
      with (n + S (Z.to_nat max_pages - n - 1)) by lia.
    rewrite (page_loop_nonempty json_loads br n _ 1 w Hload Hpages).
    rewrite page_loop_S. cbn [servers reads files]. cbn zeta.
    rewrite Hfirst.
    replace (S (reads w + n)) with (reads w + n + 1) by lia.
    rewrite Hsecond. do 2 f_equal. lia.
Qed.

Lemma navigation_visits_pages_witness :
  let json_loads := fun _ : string => Raise ValueError in
  let item := fun href => {| href_attr := Some href; get_text := "X";
                             find_parent := None |} in
  let page := fun href => {| anchors := [item href];
                             next_data_scripts := [] |} in
  let blank := {| anchors := []; next_data_scripts := [] |} in
  let br := {| setup_driver := Ok tt; load_page := fun _ => Ok tt;
               page_source := fun k =>
                 match k with
                 | 0 => Ok (page "/server/a/b")
                 | 1 => Ok (page "/server/c/d")
                 | _ => Ok blank
                 end |} in
  let w := {| servers := []; reads := 0; files := ∅ |} in
  navigate_all_pages json_loads br 510 w
  = ({| servers := servers w ++ page_outputs json_loads br (reads w) 2;
        reads := reads w + 2 + 2; files := files w |}, Ok tt).
Proof.
  intros json_loads item page blank br w.
  apply (navigation_visits_pages json_loads br 510 w 2 2).
  - reflexivity.
  - intros k Hk. cbn [reads w] in Hk.
    destruct k as [|[|k]]; [| |lia]; eexists; (split; [reflexivity|]);
      discriminate.
  - right. split; [vm_compute; lia|]. split; [reflexivity|].
    split; reflexivity.
Defined.

(** X15.  [main] never ends with an uncaught exception: its status is 1
    when [run] raises something other than the interrupt, and 0 when
    [run] returns or is interrupted. *)
Theorem main_exit_status
    (json_loads : string -> result pyval) (br : browser) (mode : run_mode)
    (max_pages : Z) (output : string) (files0 : gmap string (list pyval)) :
  snd (main json_loads br mode max_pages output files0)
  = match snd (run json_loads br mode max_pages
                 {| servers := []; reads := 0; files := files0 |}) with
    | Ok _ | Raise KeyboardInterrupt => Exit 0
    | Raise _ => Exit 1
    end.
Proof.
  destruct (run json_loads br mode max_pages
              {| servers := []; reads := 0; files := files0 |})
    as [w1 r] eqn:Hrun.
  destruct (main_after_run json_loads br mode max_pages output files0 w1 r
              Hrun) as (unique & _ & ->).
  cbn [snd]. destruct r as [[]|[]]; reflexivity.
Qed.

(** X16.  After a complete run in the mode "all" the status is 0 and
    the output file holds the deduplicated accumulated records: no two of
    its records have the same key, and every accumulated record has a
    record with its key in the file.  Files are told apart by their
    names, and the output name is taken to be that of a plain file. *)
Theorem complete_run_writes_output
    (json_loads : string -> result pyval) (br : browser)
    (max_pages : Z) (output : string) (files0 : gmap string (list pyval))
    (w1 : world) :
  run json_loads br ModeAll max_pages
    {| servers := []; reads := 0; files := files0 |} = (w1, Ok tt) ->
  exists unique final,
    dedupe (servers w1) = Ok unique
    /\ main json_loads br ModeAll max_pages output files0
       = ({| servers := servers w1; reads := reads w1; files := final |},
          Exit 0)
    /\ final !! output = Some unique
    /\ NoDup (record_key <$> unique)
    /\ (forall r, r ∈ servers w1 ->
          exists r', r' ∈ unique /\ record_key r' = record_key r).
Proof.
  intros Hrun.
  destruct (main_after_run json_loads br ModeAll max_pages output files0
              w1 (Ok tt) Hrun) as (unique & Hd & Hmain).
  exists unique, (<[output := unique]> (delete default_filename files0)).
  split; [exact Hd|]. split; [exact Hmain|].
  split; [apply lookup_insert_eq|].
  destruct (run_all_Ok json_loads br max_pages
              {| servers := []; reads := 0; files := files0 |} w1
              (Forall_nil_2 _) Hrun)
    as (w' & unique' & _ & Hnav & _ & Hd' & ->).
  cbn [servers] in *.
  destruct (accumulates_navigate_all_pages json_loads br max_pages
              {| servers := []; reads := 0; files := files0 |} w' (Ok tt)
              (Forall_nil_2 _) Hnav) as (Hst & _).
  destruct (save_data_storable output w' Hst) as (u & Hu & _ & Hall).
  assert (u = unique) by congruence. subst u. split; [|exact Hall].
  destruct (dedupe_Ok _ _ Hd) as [_ ->].
  rewrite (record_key_fmap_keyed _ (keep_first_keyed _ _)).
  apply (@NoDup_fmap_2 _ _ Ok (inj_Ok _)), keep_first_NoDup.
Qed.

Lemma complete_run_writes_output_witness :
  let json_loads := fun _ : string => Raise ValueError in
  let page := {| anchors := [{| href_attr := Some "/server/x/y";
                                get_text := "X"; find_parent := None |}];
                 next_data_scripts := [] |} in
  let br := {| setup_driver := Ok tt; load_page := fun _ => Ok tt;
               page_source := fun _ => Ok page |} in
  exists w final,
    main json_loads br ModeAll 2 "out.json" ∅
    = ({| servers := servers w; reads := 2; files := final |}, Exit 0)
    /\ length (servers w) = 2
    /\ exists unique, final !! "out.json" = Some unique /\ length unique = 1.
Proof.
  intros json_loads page br.
  destruct (run json_loads br ModeAll 2
              {| servers := []; reads := 0; files := ∅ |})
    as [w1 r] eqn:Hrun.
  assert (Hr : r = Ok tt /\ reads w1 = 2 /\ length (servers w1) = 2).
  { vm_compute in Hrun. injection Hrun as <- <-. repeat split. }
  destruct Hr as (-> & Hreads & Hlen).
  destruct (complete_run_writes_output json_loads br 2 "out.json" ∅ w1 Hrun)
    as (unique & final & Hd & Hmain & Hout & _ & _).
  exists w1, final. rewrite Hmain, Hreads.
  split; [reflexivity|]. split; [exact Hlen|].
  exists unique. split; [exact Hout|].
  vm_compute in Hrun. injection Hrun as <-.
  vm_compute in Hd. injection Hd as <-. reflexivity.
Defined.

(** X17.  In the mode "single" nothing is accumulated and no file is
    written, however the run ends; at most one extraction is made. *)
Theorem single_mode_writes_nothing
    (json_loads : string -> result pyval) (br : browser)
    (max_pages : Z) (output : string) (files0 : gmap string (list pyval)) :
  let w := fst (main json_loads br ModeSingle max_pages output files0) in
  files w = files0 /\ servers w = [] /\ reads w <= 1.
Proof.
  unfold main, run, extract_single_page, extract_current, lift.
  unfold mbind, M_bind, mret, M_ret.
  cbn [servers reads files].
  destruct (setup_driver br) as [[]|[]]; cbn [fst servers reads files];
    try (repeat split; lia).
  destruct (load_page br 1) as [[]|[]]; cbn [fst servers reads files];
    try (repeat split; lia).
  destruct (page_source br 0) as [doc|[]]; cbn [fst servers reads files result_bind];
    try (repeat split; lia).
  destruct (extract_servers_from_page json_loads doc) as [?|[]]; cbn [fst servers reads files];
    repeat split; lia.
Qed.

(** X18.  With [max_pages] not positive a run in the mode "all" whose
    driver starts and whose first page loads makes no extraction and
    writes the empty list to the output file, with status 0. *)
Theorem no_pages_run
    (json_loads : string -> result pyval) (br : browser)
    (max_pages : Z) (output : string) (files0 : gmap string (list pyval)) :
  setup_driver br = Ok tt ->
  load_page br 1 = Ok tt ->
  (max_pages <= 0)%Z ->
  exists final,
    main json_loads br ModeAll max_pages output files0
    = ({| servers := []; reads := 0; files := final |}, Exit 0)
    /\ final !! output = Some [].
Proof.
  intros Hsetup Hload Hle.
  assert (Hrun : run json_loads br ModeAll max_pages
                   {| servers := []; reads := 0; files := files0 |}
                 = ({| servers := []; reads := 0;
                       files := <[default_filename := []]> files0 |}, Ok tt)).
  { rewrite run_all_eq, Hsetup, navigate_all_pages_eq, Hload.
    replace (Z.to_nat max_pages) with 0 by lia. reflexivity. }
  destruct (main_after_run json_loads br ModeAll max_pages output files0
              _ _ Hrun) as (unique & Hd & ->).
  cbn [servers reads] in *. injection Hd as <-.
  eexists. split; [reflexivity|]. apply lookup_insert_eq.
Qed.

Lemma no_pages_run_witness :
  let br := {| setup_driver := Ok tt; load_page := fun _ => Ok tt;
               page_source := fun _ => Raise WebDriverException |} in
  exists final,
    main (fun _ => Raise ValueError) br ModeAll 0 "out.json" ∅
    = ({| servers := []; reads := 0; files := final |}, Exit 0)
    /\ final !! "out.json" = Some [].
Proof.
  intros br.
  apply (no_pages_run (fun _ => Raise ValueError) br 0 "out.json" ∅);
    [reflexivity|reflexivity|lia].
Defined.

(** X19.  A complete run over [n] pages with records, ended by the page
    bound or by two extractions that return nothing, writes to the output
    file what deduplicating all the records collected on these pages at
    once gives. *)
Theorem complete_run_end_to_end
    (json_loads : string -> result pyval) (br : browser)
    (max_pages : Z) (output : string) (files0 : gmap string (list pyval))
    (docs : nat -> soup) (n stop : nat) :
  setup_driver br = Ok tt ->
  (forall p, load_page br p = Ok tt) ->
  (forall k, k < n ->
     page_source br k = Ok (docs k)
     /\ exists out, extract_servers_from_page json_loads (docs k) = Ok out
          /\ out <> []) ->
  (n = Z.to_nat max_pages /\ stop = 0)
  \/ (n < Z.to_nat max_pages /\ stop = 2
      /\ visit json_loads br n = Ok []
      /\ visit json_loads br (n + 1) = Ok []) ->
  exists unique,
    dedupe (concat ((fun k => collect_servers json_loads (docs k))
                      <$> seq 0 n)) = Ok unique
    /\ main json_loads br ModeAll max_pages output files0
       = ({| servers := page_outputs json_loads br 0 n; reads := n + stop;
             files := <[output := unique]>
                        (delete default_filename files0) |}, Exit 0).
Proof.
  intros Hsetup Hload Hpages Hend.
  set (w0 := {| servers := []; reads := 0; files := files0 |}).
  assert (Hvisit : forall k, k < n ->
            visit json_loads br k
            = extract_servers_from_page json_loads (docs k)).
  { intros k Hk. unfold visit. destruct (Hpages k Hk) as [-> _].
    reflexivity. }
  assert (Hnav : navigate_all_pages json_loads br max_pages w0
                 = ({| servers := page_outputs json_loads br 0 n;
                       reads := n + stop; files := files0 |}, Ok tt)).
  { apply (navigate_pages json_loads br max_pages w0 n stop Hload).
    - intros k Hk. cbn [reads w0] in Hk.
      destruct (Hpages k) as [_ (out & Hout & Hne)]; [lia|].
      exists out. rewrite Hvisit by lia. auto.
    - exact Hend. }
  assert (Hall : Forall2 (fun p o => dedupe p = Ok o)
                   ((fun k => collect_servers json_loads (docs k)) <$> seq 0 n)
                   ((fun k => match visit json_loads br k with
                              | Ok out => out
                              | Raise _ => []
                              end) <$> seq 0 n)).
  { apply Forall2_fmap, Forall_Forall2_diag, Forall_forall.
    intros k Hk%elem_of_seq. rewrite Hvisit by lia.
    destruct (Hpages k) as [_ (out & Hout & _)]; [lia|].
    rewrite Hout. exact Hout. }
  destruct (dedupe_pages _ _ Hall) as [Hk Heq].
  fold (page_outputs json_loads br 0 n) in Heq.
  destruct (save_data_storable default_filename
              {| servers := page_outputs json_loads br 0 n;
                 reads := n + stop; files := files0 |})
    as (unique & Hd & Hsave & _).
  { cbn [servers]. unfold page_outputs. apply Forall_concat, Forall_fmap,
      Forall_forall.
    intros k Hk'%elem_of_seq. cbn. rewrite Hvisit by lia.
    destruct (Hpages k) as [_ (out & Hout & _)]; [lia|].
    rewrite Hout. apply (dedupe_out_storable _ _ Hout). }
  cbn [servers reads files] in Hd, Hsave.
  assert (Hrun : run json_loads br ModeAll max_pages w0
                 = ({| servers := page_outputs json_loads br 0 n;
                       reads := n + stop;
                       files := <[default_filename := unique]> files0 |},
                    Ok tt)).
  { rewrite run_all_eq, Hsetup, Hnav. exact Hsave. }
  destruct (main_after_run json_loads br ModeAll max_pages output files0
              _ _ Hrun) as (unique' & Hd' & Hmain).
  cbn [servers reads files] in Hd', Hmain.
  assert (unique' = unique) by congruence. subst unique'.
  exists unique. split; [rewrite <- Heq; exact Hd|exact Hmain].
Qed.

Lemma complete_run_end_to_end_witness :
  let json_loads := fun _ : string => Raise ValueError in
  let item := fun href => {| href_attr := Some href; get_text := "X";
                             find_parent := None |} in
  let docs := fun k : nat =>
    match k with
    | 0 => {| anchors := [item "/server/a/a"; item "/server/b/b"];
              next_data_scripts := [] |}
    | 1 => {| anchors := [item "/server/b/b"; item "/server/c/c"];
              next_data_scripts := [] |}
    | _ => {| anchors := []; next_data_scripts := [] |}
    end in
  let br := {| setup_driver := Ok tt; load_page := fun _ => Ok tt;
               page_source := fun k => Ok (docs k) |} in
  exists unique,
    length unique = 3
    /\ main json_loads br ModeAll 510 "out.json" ∅
       = ({| servers := page_outputs json_loads br 0 2; reads := 2 + 2;
             files := <["out.json" := unique]> (delete default_filename ∅) |},
          Exit 0).
Proof.
  intros json_loads item docs br.
  destruct (complete_run_end_to_end json_loads br 510 "out.json" ∅ docs 2 2)
    as (unique & Hd & Hmain).
  - reflexivity.
  - reflexivity.
  - intros k Hk. split; [reflexivity|].
    destruct k as [|[|k]]; [| |lia]; eexists; (split; [reflexivity|]);
      discriminate.
  - right. split; [vm_compute; lia|]. split; [reflexivity|].
    split; reflexivity.
  - exists unique. split; [|exact Hmain].
    vm_compute in Hd. injection Hd as <-. reflexivity.
Defined.



(** ** Which anchors are taken *)

Section Selection.

Lemma append_cons (c : ascii) (a b : string) :
  String c a +:+ b = String c (a +:+ b).
Proof. reflexivity. Qed.

Lemma append_nil (b : string) : EmptyString +:+ b = b.
Proof. reflexivity. Qed.

Lemma prefix_app (a s : string) :
  String.prefix a s = true <-> exists post, s = a +:+ post.
Proof.
  revert s. induction a as [|c a IH]; intros s.
  - split; [intros _; exists s; reflexivity|].
    intros _. destruct s; reflexivity.
  - destruct s as [|d s].
    + split; [discriminate|]. intros [post H]. discriminate.
    + change (String.prefix (String c a) (String d s))
        with (if Ascii.ascii_dec c d then String.prefix a s else false).
      destruct (Ascii.ascii_dec c d) as [->|Hne].
      * rewrite IH. split; intros [post H]; exists post;
          rewrite append_cons in *; congruence.
      * split; [discriminate|]. intros [post H].
        rewrite append_cons in H. congruence.
Qed.

(** [sub in s] holds exactly when [s] is [sub] with something before and
    something after. *)
Lemma contains_app (sub s : string) :
  contains sub s = true <-> exists pre post, s = pre +:+ sub +:+ post.
Proof.
  induction s as [|c s IH]; cbn [contains].
  - rewrite orb_false_r, prefix_app. split.
    + intros [post H]. exists EmptyString, post. exact H.
    + intros ([|? ?] & post & H); [eauto|discriminate].
  - rewrite orb_true_iff, prefix_app, IH. split.
    + intros [[post H] | (pre & post & H)].
      * exists EmptyString, post. exact H.
      * exists (String c pre), post. rewrite append_cons. congruence.
    + intros ([|d pre] & post & H).
      * left. exists post. exact H.
      * right. exists pre, post. rewrite append_cons in H. congruence.
Qed.

End Selection.

(** X21.  An anchor enters the loop exactly when it has an href that
    reads as some text, then "/server/", then some text; an anchor
    without href, with an empty href or with the href "/servers" does
    not. *)
Theorem server_link_selection (link : anchor) :
  (is_server_link link = true <->
   exists pre post, href_attr link = Some (pre +:+ "/server/" +:+ post))
  /\ (href_attr link = None \/ href_attr link = Some EmptyString
      \/ href_attr link = Some "/servers" ->
      is_server_link link = false).
Proof.
  split.
  - rewrite is_server_link_segment. unfold has_server_segment.
    destruct (href_attr link) as [href|].
    + rewrite contains_app. split; intros (pre & post & H);
        exists pre, post; congruence.
    + split; [discriminate|]. intros (pre & post & H). discriminate.
  - unfold is_server_link. intros [-> | [-> | ->]]; reflexivity.
Qed.

Lemma server_link_selection_witness :
  is_server_link {| href_attr := Some "/servers"; get_text := "all";
                    find_parent := None |} = false.
Proof.
  apply (proj2 (server_link_selection _)). right. right. reflexivity.
Defined.
